(** * Geolocation classifier for tweets: the data-preparation core

    A shallow embedding of the notebook [Project.ipynb]:
    - the vocabulary loader (the cell building [word_dict]),
    - [clean_count_and_labels], the decoder of raw count records,
    - [zero_r], the majority-class baseline,
    - the cells that fit the feature selector [x2] and project the three
      datasets with it.

    Python strings are lists of 8-bit characters (the delimiters that the
    code looks for are ASCII), Python integers are [Z], a Python [dict] is
    an insertion-ordered association list with unique keys, and a Python
    exception is the [Raise] branch of the [result] type.  The definitions
    come first, the properties after them. *)

From Stdlib Require Import ZArith Ascii String Lia.
From stdpp Require Import base decidable option list.

Local Open Scope Z_scope.

(** ** Strings *)

Abbreviation str := (list ascii).

Definition s2l (s : string) : str := list_ascii_of_string s.

Definition dquote : ascii := "034"%char.
Definition newline : ascii := "010"%char.
Definition comma : ascii := ","%char.
Definition tab : ascii := "009"%char.

#[global] Instance ascii_eq_dec : EqDecision ascii := Ascii.ascii_dec.

(** ** Exceptions *)

Inductive exn : Type :=
  | AttributeError   (* [.group] on the [None] returned by [re.search] *)
  | LiteralError     (* [SyntaxError]/[ValueError] out of [ast.literal_eval] *)
  | TypeError        (* not iterable, cannot unpack, unhashable *)
  | ValueError       (* wrong number of values to unpack, [int()] of a non-number *)
  | IndexError       (* list index out of range *)
  | InvalidParameter (* feature selection: bad [k] *)
  | ShapeMismatch.   (* feature selection: wrong column count *)

Inductive result (A : Type) : Type :=
  | Ok (a : A)
  | Raise (e : exn).
Arguments Ok {A} a.
Arguments Raise {A} e.

(** Sequencing: an exception in [m] skips the rest. *)
#[global] Instance result_bind : MBind result := fun A B k m =>
  match m with
  | Ok a => k a
  | Raise e => Raise e
  end.

Definition is_ok {A} (m : result A) : Prop := exists a, m = Ok a.

(** ** Python dictionaries

    Insertion-ordered, one entry per key.  Assigning to a key that is
    already present replaces the value and keeps the entry's position. *)

Section Dict.
Context {K V : Type} `{EqDecision K}.

Definition dict := list (K * V).

Fixpoint dict_set (d : dict) (k : K) (v : V) : dict :=
  match d with
  | [] => [(k, v)]
  | (k', v') :: d' =>
      if decide (k' = k) then (k', v) :: d' else (k', v') :: dict_set d' k v
  end.

Fixpoint dict_get (d : dict) (k : K) : option V :=
  match d with
  | [] => None
  | (k', v') :: d' => if decide (k' = k) then Some v' else dict_get d' k
  end.

Definition dict_contains (d : dict) (k : K) : bool :=
  match dict_get d k with Some _ => true | None => false end.

Definition dict_keys (d : dict) : list K := map fst d.
Definition dict_values (d : dict) : list V := map snd d.

End Dict.
Arguments dict K V : clear implicits.

(** A [for] loop whose body may raise: the loop stops at the first
    exception. *)
Fixpoint for_each {S A} (body : S -> A -> result S) (s : S) (l : list A)
  : result S :=
  match l with
  | [] => Ok s
  | x :: l' => s' ← body s x; for_each body s' l'
  end.

(** Applying a function that may raise to every element, in order. *)
Fixpoint map_result {A B} (f : A -> result B) (l : list A) : result (list B) :=
  match l with
  | [] => Ok []
  | x :: l' => y ← f x; ys ← map_result f l'; Ok (y :: ys)
  end.

(** Python indexing [l[i]] of a list with a non-negative index. *)
Definition index {A} (l : list A) (i : nat) : result A :=
  match l !! i with
  | Some x => Ok x
  | None => Raise IndexError
  end.

(** ** [str.split], [re.search] and [int] *)

(** [split_on sep s] is [s.split(sep)] for a one-character separator: the
    fields between the separators, always at least one. *)
Fixpoint split_on (sep : ascii) (s : str) : list str :=
  match s with
  | [] => [[]]
  | c :: s' =>
      if decide (c = sep) then [] :: split_on sep s'
      else match split_on sep s' with
           | f :: fs => (c :: f) :: fs
           | [] => [[c]]
           end
  end.

(** [until_quote s] reads [s] up to the next double quote; it fails when a
    newline comes first ([.] does not match a newline) or when [s] ends. *)
Fixpoint until_quote (s : str) : option str :=
  match s with
  | [] => None
  | c :: s' =>
      if decide (c = dquote) then Some []
      else if decide (c = newline) then None
      else option_map (cons c) (until_quote s')
  end.

(** [re_search_quoted line] is [re.search('"(.*?)"', line)] followed, on a
    match, by [.group(1)]: the leftmost position at which the pattern
    matches, and there the shortest text up to a closing quote.  [None] is
    the [None] of [re.search]. *)
Fixpoint re_search_quoted (line : str) : option str :=
  match line with
  | [] => None
  | c :: s' =>
      if decide (c = dquote) then
        match until_quote s' with
        | Some g => Some g
        | None => re_search_quoted s'
        end
      else re_search_quoted s'
  end.

(** [re.search(...).group(1)]: an [AttributeError] when nothing matched. *)
Definition search_group1 (line : str) : result str :=
  match re_search_quoted line with
  | Some g => Ok g
  | None => Raise AttributeError
  end.

(** The characters that [int] skips around the number of an ASCII string:
    tab, newline, vertical tab, form feed, carriage return and blank. *)
Definition is_space (c : ascii) : bool :=
  let n := nat_of_ascii c in
  ((9 <=? n) && (n <=? 13) || (n =? 32))%nat.

Definition digit_of (c : ascii) : option Z :=
  let n := Z.of_nat (nat_of_ascii c) in
  if (48 <=? n) && (n <=? 57) then Some (n - 48) else None.

Fixpoint lstrip (s : str) : str :=
  match s with
  | c :: s' => if is_space c then lstrip s' else s
  | [] => []
  end.

Definition strip (s : str) : str := rev (lstrip (rev (lstrip s))).

(** Decimal digits, with single underscores allowed between two digits. *)
Fixpoint digits_value (acc : Z) (after_digit : bool) (s : str) : option Z :=
  match s with
  | [] => if after_digit then Some acc else None
  | c :: s' =>
      if decide (c = "_"%char) then
        if after_digit then digits_value acc false s' else None
      else
        match digit_of c with
        | Some d => digits_value (10 * acc + d) true s'
        | None => None
        end
  end.

(** [int(s)] on a string, base 10: blanks around the number, an optional
    sign, ASCII digits. *)
Definition py_int (s : str) : result Z :=
  let body :=
    match strip s with
    | c :: t =>
        if decide (c = "-"%char) then Z.opp <$> digits_value 0 false t
        else if decide (c = "+"%char) then digits_value 0 false t
        else digits_value 0 false (c :: t)
    | [] => None
    end in
  match body with
  | Some z => Ok z
  | None => Raise ValueError
  end.

(** ** The vocabulary: the cell that builds [word_dict]

<<
word_dict = dict()
for line in vocabulary:
    split_line = line.split('\t')
    word_dict[split_line[0]] = int(split_line[1])
>>
    The right-hand side of the assignment is evaluated first. *)

Definition word_dict_body (word_dict : dict str Z) (line : str)
  : result (dict str Z) :=
  let split_line := split_on tab line in
  field ← index split_line 1;
  id ← py_int field;
  term ← index split_line 0;
  Ok (dict_set word_dict term id).

Definition build_word_dict (vocabulary : list str) : result (dict str Z) :=
  for_each word_dict_body [] vocabulary.

(** The term and the id that one vocabulary line contributes. *)
Definition vocab_entry (line : str) : result (str * Z) :=
  let split_line := split_on tab line in
  field ← index split_line 1;
  id ← py_int field;
  term ← index split_line 0;
  Ok (term, id).

(** ** Python values and [ast.literal_eval]

    The values that occur in count files: integers, tuples and lists. *)

#[warnings="-register-all"]
Inductive pyval : Type :=
  | PInt (z : Z)
  | PTuple (items : list pyval)
  | PList (items : list pyval).

Fixpoint pyval_eq_dec (x y : pyval) {struct x} : {x = y} + {x <> y}.
Proof.
  decide equality; try apply Z.eq_dec; apply (List.list_eq_dec pyval_eq_dec).
Defined.

#[global] Instance pyval_eqdec : EqDecision pyval := pyval_eq_dec.

Inductive token : Type :=
  | TLPar | TRPar | TLBrack | TRBrack | TComma | TPlus | TMinus
  | TInt (z : Z).

(** A decimal integer literal: no leading zero unless every digit is zero. *)
Definition decimal_literal (s : str) : option Z :=
  match digits_value 0 false s with
  | Some z =>
      match s with
      | c :: _ => if decide (c = "0"%char) then
                    if decide (z = 0) then Some z else None
                  else Some z
      | [] => None
      end
  | None => None
  end.

Definition close_number (cur : str) (rest : list token) : option (list token) :=
  match cur with
  | [] => Some rest
  | _ => match decimal_literal (rev cur) with
         | Some z => Some (TInt z :: rest)
         | None => None
         end
  end.

(** The lexer; [cur] holds the characters of the number being read, last
    character first.  Blanks and tabs separate tokens. *)
Fixpoint lex (cur : str) (s : str) : option (list token) :=
  match s with
  | [] => close_number cur []
  | c :: s' =>
      if bool_decide (is_Some (digit_of c)) || bool_decide (c = "_"%char)
      then lex (c :: cur) s'
      else
        let rest :=
          if decide (c = "("%char) then cons TLPar <$> lex [] s'
          else if decide (c = ")"%char) then cons TRPar <$> lex [] s'
          else if decide (c = "["%char) then cons TLBrack <$> lex [] s'
          else if decide (c = "]"%char) then cons TRBrack <$> lex [] s'
          else if decide (c = ","%char) then cons TComma <$> lex [] s'
          else if decide (c = "+"%char) then cons TPlus <$> lex [] s'
          else if decide (c = "-"%char) then cons TMinus <$> lex [] s'
          else if decide (c = " "%char) then lex [] s'
          else if decide (c = tab) then lex [] s'
          else None in
        rest ≫= close_number cur
  end.

Inductive bracket : Type := Top | Paren | Brack.

(** An open bracket: its kind, the items read so far (last first), whether
    a comma was seen, and the sign written before the bracket, if any
    ([true] for a minus). *)
Definition frame : Type := bracket * list pyval * bool * option bool.

(** The value of a closed bracket, and whether it is a bare unsigned
    number (a number in parentheses still is). *)
Definition close_frame (k : bracket) (items : list pyval) (commas plain : bool)
  : pyval * bool :=
  match k with
  | Brack => (PList (rev items), false)
  | _ => match items, commas with
         | [v], false => (v, plain)
         | _, _ => (PTuple (rev items), false)
         end
  end.

(** A sign applies to a bare unsigned number only. *)
Definition apply_sign (sign : option bool) (v : pyval) (plain : bool)
  : option (pyval * bool) :=
  match sign with
  | None => Some (v, plain)
  | Some minus =>
      match v, plain with
      | PInt z, true => Some (PInt (if minus then - z else z), false)
      | _, _ => None
      end
  end.

(** The parser: [after_item] tells whether the last token ended an item
    (then a comma or a closing bracket follows) or an item is expected;
    [sign] is the sign before the current bracket and [plain] tells whether
    the last item is a bare unsigned number. *)
Fixpoint parse (ts : list token) (stack : list frame) (k : bracket)
    (items : list pyval) (commas : bool) (sign : option bool)
    (plain after_item : bool) : option pyval :=
  match ts with
  | [] =>
      match k, stack with
      | Top, [] =>
          match items with
          | [] => None
          | _ => Some (close_frame Top items commas plain).1
          end
      | _, _ => None
      end
  | t :: ts' =>
      let close kind :=
        match stack with
        | (k', items', commas', sign') :: stack' =>
            let '(v, p) := close_frame kind items commas plain in
            match apply_sign sign v p with
            | Some (v', p') =>
                parse ts' stack' k' (v' :: items') commas' sign' p' true
            | None => None
            end
        | [] => None
        end in
      let signed minus :=
        match ts' with
        | TInt z :: ts'' =>
            parse ts'' stack k (PInt (if minus then - z else z) :: items)
              commas sign false true
        | TLPar :: ts'' =>
            parse ts'' ((k, items, commas, sign) :: stack) Paren [] false
              (Some minus) false false
        | _ => None
        end in
      match t, after_item with
      | TComma, true => parse ts' stack k items true sign false false
      | TRPar, _ => match k with Paren => close Paren | _ => None end
      | TRBrack, _ => match k with Brack => close Brack | _ => None end
      | TInt z, false => parse ts' stack k (PInt z :: items) commas sign true true
      | TMinus, false => signed true
      | TPlus, false => signed false
      | TLPar, false =>
          parse ts' ((k, items, commas, sign) :: stack) Paren [] false None
            false false
      | TLBrack, false =>
          parse ts' ((k, items, commas, sign) :: stack) Brack [] false None
            false false
      | _, _ => None
      end
  end.

(** [ast.literal_eval] on the literals of integers, tuples and lists (the
    notation of a count list); any other text is reported as
    [LiteralError]. *)
Definition literal_eval (s : str) : result pyval :=
  match lex [] s ≫= (fun ts => parse ts [] Top [] false None false false) with
  | Some v => Ok v
  | None => Raise LiteralError
  end.

(** ** [clean_count_and_labels]

<<
def clean_count_and_labels(raw_count_data, dictionary=word_dict):
    count = [[] for i in range(len(raw_count_data))]
    labels = []
    i = 0
    for line in raw_count_data:
        label = line.split(',')[0]
        labels.append(label)
        count_list = ast.literal_eval(re.search('"(.*?)"', line).group(1))
        count_dict = {index: count for index, count in count_list}
        for j in dictionary.values():
            if j in count_dict:
                count[i].append(count_dict[j])
            else:
                count[i].append(0)
        i += 1
    return count, labels
>> *)

(** Iterating over a value: an integer is not iterable. *)
Definition py_iter (v : pyval) : result (list pyval) :=
  match v with
  | PInt _ => Raise TypeError
  | PTuple items | PList items => Ok items
  end.

(** The target [index, count] of the comprehension unpacks each element
    into exactly two values. *)
Definition unpack2 (v : pyval) : result (pyval * pyval) :=
  items ← py_iter v;
  match items with
  | [a; b] => Ok (a, b)
  | _ => Raise ValueError
  end.

(** Dictionary keys must be hashable: a list is not, a tuple is when its
    items are. *)
Fixpoint hashable (v : pyval) : bool :=
  match v with
  | PInt _ => true
  | PTuple items => forallb hashable items
  | PList _ => false
  end.

Definition comprehension_body (count_dict : dict pyval pyval) (item : pyval)
  : result (dict pyval pyval) :=
  '(index, count) ← unpack2 item;
  if hashable index then Ok (dict_set count_dict index count)
  else Raise TypeError.

(** [{index: count for index, count in count_list}] *)
Definition dict_comprehension (count_list : pyval)
  : result (dict pyval pyval) :=
  items ← py_iter count_list;
  for_each comprehension_body [] items.

(** [count[i].append(x)] *)
Definition append_at (count : list (list pyval)) (i : nat) (x : pyval)
  : result (list (list pyval)) :=
  row ← index count i;
  Ok (<[i := row ++ [x]]> count).

(** The body of the inner loop, for one [j] of [dictionary.values()]. *)
Definition inner_body (count_dict : dict pyval pyval) (i : nat)
    (count : list (list pyval)) (j : Z) : result (list (list pyval)) :=
  match dict_get count_dict (PInt j) with
  | Some c => append_at count i c
  | None => append_at count i (PInt 0)
  end.

(** The variables the outer loop updates: [count] (one list per line, each
    a list of its own), [labels] and [i]. *)
Definition loop_state : Type := list (list pyval) * list str * nat.

Definition outer_body (dictionary : dict str Z) (st : loop_state) (line : str)
  : result loop_state :=
  let '(count, labels, i) := st in
  label ← index (split_on comma line) 0;
  let labels := labels ++ [label] in
  payload ← search_group1 line;
  count_list ← literal_eval payload;
  count_dict ← dict_comprehension count_list;
  count ← for_each (inner_body count_dict i) count (dict_values dictionary);
  Ok (count, labels, S i).

Definition clean_count_and_labels (raw_count_data : list str)
    (dictionary : dict str Z) : result (list (list pyval) * list str) :=
  let count := replicate (length raw_count_data) [] in
  '(count, labels, _) ←
    for_each (outer_body dictionary) (count, [], 0%nat) raw_count_data;
  Ok (count, labels).

(** *** The decoder seen one record at a time *)

(** The text before the first comma of a line. *)
Fixpoint before_comma (line : str) : str :=
  match line with
  | [] => []
  | c :: s' => if decide (c = comma) then [] else c :: before_comma s'
  end.

(** The row of a record: one entry per vocabulary column. *)
Definition row_of (count_dict : dict pyval pyval) (dictionary : dict str Z)
  : list pyval :=
  map (fun j => default (PInt 0) (dict_get count_dict (PInt j)))
      (dict_values dictionary).

(** What one line contributes: its row and its label. *)
Definition decode_line (dictionary : dict str Z) (line : str)
  : result (list pyval * str) :=
  payload ← search_group1 line;
  count_list ← literal_eval payload;
  count_dict ← dict_comprehension count_list;
  Ok (row_of count_dict dictionary, before_comma line).

Definition decode_all (dictionary : dict str Z) (lines : list str)
  : result (list (list pyval * str)) :=
  map_result (decode_line dictionary) lines.

(** The pair list of a value that is a sequence of two-element sequences
    of integers. *)
Definition as_pair (v : pyval) : option (Z * Z) :=
  match v with
  | PTuple [PInt a; PInt b] | PList [PInt a; PInt b] => Some (a, b)
  | _ => None
  end.

Definition as_pairs (v : pyval) : option (list (Z * Z)) :=
  match v with
  | PTuple items | PList items => mapM as_pair items
  | PInt _ => None
  end.

(** The count list of a line, when it is a list of integer pairs. *)
Definition pairs_of_line (line : str) : option (list (Z * Z)) :=
  match search_group1 line ≫= literal_eval with
  | Ok v => as_pairs v
  | Raise _ => None
  end.

Definition int_row (zs : list Z) : list pyval := map PInt zs.
Definition sum_Z (zs : list Z) : Z := foldr Z.add 0 zs.

(** The [count_dict] of a record whose count list is the pair list [l]. *)
Definition count_dict_of_pairs (l : list (Z * Z)) : dict pyval pyval :=
  foldl (fun d p => dict_set d (PInt p.1) (PInt p.2)) [] l.

(** The count of the last pair of [l] whose term-id is [j]. *)
Fixpoint last_count (j : Z) (l : list (Z * Z)) : option Z :=
  match l with
  | [] => None
  | p :: l' =>
      match last_count j l' with
      | Some c => Some c
      | None => if decide (p.1 = j) then Some p.2 else None
      end
  end.

(** A line contains a double-quoted substring: two double quotes with no
    newline between them. *)
Definition has_quoted (s : str) : Prop :=
  exists pre mid post,
    s = pre ++ dquote :: mid ++ dquote :: post /\ (newline ∉ mid).

(** [payload] is the first double-quoted substring of [s]: it stands
    between two double quotes, holds neither a double quote nor a newline,
    and no double-quoted substring begins before its opening quote. *)
Definition first_quoted (s payload : str) : Prop :=
  exists pre post,
    s = pre ++ dquote :: payload ++ dquote :: post /\
    (dquote ∉ payload) /\ (newline ∉ payload) /\
    ~ has_quoted (pre ++ [dquote]).

(** A quoted payload, as it stands in a count file. *)
Definition quoted (payload : string) : str := dquote :: s2l payload ++ [dquote].

(** ** [zero_r], the majority-class baseline

<<
def zero_r(train_labels, test_features):
    label_counts = Counter()
    for label in train_labels:
        label_counts[label] += 1
    majority_class = label_counts.most_common()[0][0]
    predictions = [majority_class] * len(test_features.todense())
    return predictions
>> *)

(** A matrix of counts, as its list of rows. *)
Definition matrix : Type := list (list Z).

Definition todense (m : matrix) : list (list Z) := m.

(** [label_counts[label] += 1] on a [Counter]: a missing label counts 0. *)
Definition counter_incr (label_counts : dict str Z) (label : str)
  : dict str Z :=
  dict_set label_counts label (default 0 (dict_get label_counts label) + 1).

(** [Counter.most_common()] is [sorted(items, key=itemgetter(1),
    reverse=True)]: by decreasing count, entries of equal count in
    insertion order. *)
Fixpoint insert_by_count (x : str * Z) (l : list (str * Z)) : list (str * Z) :=
  match l with
  | [] => [x]
  | y :: l' => if x.2 <? y.2 then y :: insert_by_count x l' else x :: l
  end.

Definition most_common (label_counts : dict str Z) : list (str * Z) :=
  foldr insert_by_count [] label_counts.

Definition zero_r (train_labels : list str) (test_features : matrix)
  : result (list str) :=
  let label_counts := foldl counter_incr [] train_labels in
  first ← index (most_common label_counts) 0;
  let majority_class := first.1 in
  let predictions := replicate (length (todense test_features)) majority_class in
  Ok predictions.

(** The number of occurrences of a label in a label vector. *)
Definition occurrences (label : str) (labels : list str) : Z :=
  Z.of_nat (length (filter (fun l => l = label) labels)).

(** ** The cells around the feature selector [x2]

<<
train_results = clean_count_and_labels(train_data_count)
full_train_count_values = csr_matrix(train_results[0])
train_labels = train_results[1]
dev_results = clean_count_and_labels(dev_data_count)
full_dev_count_values = csr_matrix(dev_results[0])
dev_labels = dev_results[1]
K = 500
x2 = SelectKBest(chi2, k=K)
x2.fit(full_train_count_values, train_labels)
train_count_values = x2.transform(full_train_count_values)
dev_count_values = x2.transform(full_dev_count_values)
...
test_results = clean_count_and_labels(test_data_count)
full_test_count_values = csr_matrix(test_results[0])
test_count_values = x2.transform(full_test_count_values)
>>
    [csr_matrix], [SelectKBest] and [chi2] belong to libraries whose code is
    not part of the repository. *)

Definition K : nat := 500.

(** The cells are written over the library calls they make, whatever these
    compute. *)
Section Notebook.
Context {sparse selector : Type}.

(** [csr_matrix(count)] *)
Variable csr_matrix : list (list pyval) -> result sparse.

(** [x2 = SelectKBest(chi2, k=k)] then [x2.fit(X, y)]: the fitted [x2]. *)
Variable x2_fit : sparse -> list str -> nat -> result selector.

(** [x2.transform(X)]: the projected matrix and [x2] after the call. *)
Variable x2_transform : selector -> sparse -> result (sparse * selector).

(** The variables of the notebook once its data cells have run. *)
Record notebook : Type := {
  word_dict : dict str Z;
  full_train_count_values : sparse;
  train_labels : list str;
  full_dev_count_values : sparse;
  dev_labels : list str;
  x2 : selector;
  train_count_values : sparse;
  dev_count_values : sparse;
  full_test_count_values : sparse;
  test_count_values : sparse
}.

(** The data cells of the notebook in their order, for a selection size
    [k]; every count file loses its header line ([readlines()[1:]]). *)
Definition run_cells (k : nat) (vocabulary train_file dev_file test_file : list str)
  : result notebook :=
  let train_data_count := drop 1 train_file in
  let dev_data_count := drop 1 dev_file in
  let test_data_count := drop 1 test_file in
  word_dict ← build_word_dict vocabulary;
  train_results ← clean_count_and_labels train_data_count word_dict;
  full_train_count_values ← csr_matrix train_results.1;
  let train_labels := train_results.2 in
  dev_results ← clean_count_and_labels dev_data_count word_dict;
  full_dev_count_values ← csr_matrix dev_results.1;
  let dev_labels := dev_results.2 in
  x2 ← x2_fit full_train_count_values train_labels k;
  '(train_count_values, x2) ← x2_transform x2 full_train_count_values;
  '(dev_count_values, x2) ← x2_transform x2 full_dev_count_values;
  test_results ← clean_count_and_labels test_data_count word_dict;
  full_test_count_values ← csr_matrix test_results.1;
  '(test_count_values, x2) ← x2_transform x2 full_test_count_values;
  Ok {| word_dict := word_dict;
        full_train_count_values := full_train_count_values;
        train_labels := train_labels;
        full_dev_count_values := full_dev_count_values;
        dev_labels := dev_labels;
        x2 := x2;
        train_count_values := train_count_values;
        dev_count_values := dev_count_values;
        full_test_count_values := full_test_count_values;
        test_count_values := test_count_values |}.

(** The notebook itself, with [K = 500]. *)
Definition run_notebook (vocabulary train_file dev_file test_file : list str)
  : result notebook :=
  run_cells K vocabulary train_file dev_file test_file.

(** What the training data alone determine: the selector fitted on the
    training matrix and the training labels. *)
Definition fit_on_training (k : nat) (vocabulary train_file : list str)
  : result selector :=
  word_dict ← build_word_dict vocabulary;
  train_results ← clean_count_and_labels (drop 1 train_file) word_dict;
  full_train_count_values ← csr_matrix train_results.1;
  x2_fit full_train_count_values train_results.2 k.

End Notebook.

(** ** The library calls as the specification describes them *)

Definition as_int (v : pyval) : result Z :=
  match v with
  | PInt z => Ok z
  | _ => Raise TypeError
  end.

(** Modelled from the spec: [csr_matrix(count)] of the library, which is
    not in the repository: the matrix assembled from the rows returned by
    [clean_count_and_labels]; the entries have to be integers. *)
Definition csr_of_rows (count : list (list pyval)) : result matrix :=
  map_result (map_result as_int) count.

Definition n_columns (m : matrix) : nat :=
  match m with
  | row :: _ => length row
  | [] => 0%nat
  end.

Section FeatureSelector.
Context {score : Type}.

(** The order of the scores and the chi-squared statistic of a column of a
    matrix against the labels, both left open. *)
Variable score_ltb : score -> score -> bool.
Variable chi2 : matrix -> list str -> nat -> score.

(** The selected feature set: the column count of the matrix it was built
    against and the selected column indices with their scores, best first. *)
Record SelectedFeatureSet : Type := {
  n_features : nat;
  selected : list (nat * score)
}.

(** Columns by decreasing score, columns of equal score by increasing
    index. *)
Fixpoint insert_by_score (x : nat * score) (l : list (nat * score))
  : list (nat * score) :=
  match l with
  | [] => [x]
  | y :: l' => if score_ltb x.2 y.2 then y :: insert_by_score x l' else x :: l
  end.

Definition rank_columns (scores : list (nat * score)) : list (nat * score) :=
  foldr insert_by_score [] scores.

(** Modelled from the spec: [fit] of the library's [SelectKBest], which is
    not in the repository: the chi-squared statistic of every column of the
    training matrix against the labels, the columns ranked by decreasing
    statistic (ties by original index), the top [k] retained; an
    invalid-parameter failure when [k] is not positive or exceeds the
    column count. *)
Definition fit (trainMatrix : matrix) (trainLabels : list str) (k : nat)
  : result SelectedFeatureSet :=
  let n := n_columns trainMatrix in
  if ((k =? 0) || (n <? k))%nat then Raise InvalidParameter
  else
    let scores := map (fun j => (j, chi2 trainMatrix trainLabels j)) (seq 0 n) in
    Ok {| n_features := n; selected := take k (rank_columns scores) |}.

(** Modelled from the spec: [transform] of the library's [SelectKBest],
    which is not in the repository: only the selected columns, in the order
    of the selected feature set, row count unchanged; a shape-mismatch
    failure when the matrix has another column count than the matrix the
    set was built against. *)
Definition transform (m : matrix) (sel : SelectedFeatureSet) : result matrix :=
  if forallb (fun row => (length row =? n_features sel)%nat) m then
    Ok (map (fun row => map (fun c => nth c.1 row 0) (selected sel)) m)
  else Raise ShapeMismatch.

(** Modelled from the spec: the call [x2.transform(X)] on the selector
    object of the library; [transform] has no side effect, the object
    after the call is the object before it. *)
Definition transform_call (x2 : SelectedFeatureSet) (X : matrix)
  : result (matrix * SelectedFeatureSet) :=
  X' ← transform X x2;
  Ok (X', x2).

End FeatureSelector.

(** ** Sample data *)

Definition sample_vocabulary : dict str Z :=
  [(s2l "a", 0); (s2l "b", 1); (s2l "c", 2)].

(** A well-formed record. *)
Definition line_plain : str :=
  s2l "X,t1," ++ quoted "[(0, 2), (2, 1)]" ++ [newline].

(** A record with the term-id 0 in two pairs. *)
Definition line_repeated : str :=
  s2l "Y,t2," ++ quoted "[(0, 1), (0, 2)]" ++ [newline].

(** A record with a term-id that the sample vocabulary does not know. *)
Definition line_unknown_id : str :=
  s2l "Z,t3," ++ quoted "[(1, 5), (9, 4)]" ++ [newline].

(** A record whose literal does not parse. *)
Definition line_malformed : str :=
  s2l "W,t4," ++ quoted "[(1, 5" ++ [newline].

(** A record without any double quote. *)
Definition line_unquoted : str := s2l "W,t5,[(1, 5)]" ++ [newline].

(** A vocabulary file with the term [a] on two lines. *)
Definition sample_vocabulary_file : list str :=
  [s2l "a" ++ tab :: s2l "0" ++ [newline];
   s2l "b" ++ tab :: s2l "1" ++ [newline];
   s2l "a" ++ tab :: s2l "7" ++ [newline];
   s2l "c" ++ tab :: s2l "2" ++ [newline]].

(** Training labels with ten [A] and five [B], and a test matrix of three
    rows. *)
Definition sample_train_labels : list str :=
  replicate 4 (s2l "A") ++ replicate 5 (s2l "B") ++ replicate 6 (s2l "A").

Definition sample_test_features : matrix := [[1; 0]; [0; 0]; [2; 3]].

(** A stand-in for the statistic: the total of a column. *)
Definition column_total (m : matrix) (labels : list str) (j : nat) : Z :=
  sum_Z (map (fun row => nth j row 0) m).

(** Count files: a header line, then records. *)
Definition sample_train_file : list str :=
  [s2l "region,tweet,counts" ++ [newline]; line_plain; line_repeated].
Definition sample_dev_file : list str :=
  [s2l "region,tweet,counts" ++ [newline]; line_unknown_id].
Definition sample_test_file : list str :=
  [s2l "region,tweet,counts" ++ [newline]; line_plain].
Definition other_dev_file : list str :=
  [s2l "region,tweet,counts" ++ [newline]; line_repeated; line_plain].
Definition other_test_file : list str :=
  [s2l "region,tweet,counts" ++ [newline]; line_unknown_id; line_repeated].

Definition plain_vocabulary_file : list str :=
  [s2l "a" ++ tab :: s2l "0" ++ [newline];
   s2l "b" ++ tab :: s2l "1" ++ [newline];
   s2l "c" ++ tab :: s2l "2" ++ [newline]].

Definition sample_train_matrix : matrix := [[2; 0; 1]; [2; 0; 0]].

(** The selector fitted for two columns on [sample_train_matrix] with
    [column_total] as the statistic. *)
Definition sample_selector : SelectedFeatureSet (score := Z) :=
  {| n_features := 3; selected := [(0%nat, 4); (2%nat, 1)] |}.

(** ** The remaining cells

<<
zero_r_predictions = zero_r(train_labels, dev_count_values)
print(f"Zero Rules predicted class distribution\t {Counter(zero_r_predictions)}")
>> *)

(** [Counter(iterable)]: every element counted, in order. *)
Definition Counter (elements : list str) : dict str Z :=
  foldl counter_incr [] elements.

(** The cell that runs the baseline: its predictions and the distribution
    it prints. *)
Definition zero_r_cell (train_labels : list str) (dev_count_values : matrix)
  : result (list str * dict str Z) :=
  zero_r_predictions ← zero_r train_labels dev_count_values;
  Ok (zero_r_predictions, Counter zero_r_predictions).

(**
<<
with open('predictions.csv', 'w', newline='') as file:
    writer = csv.writer(file)
    writer.writerow(["id", "region"])
    i = 1
    for prediction in test_predictions:
        writer.writerow([i, prediction])
        i += 1
>>
    The file is the sequence of the rows handed to [writerow]; how the
    library prints a row is left out. *)

Inductive field : Type :=
  | FInt (z : Z)
  | FStr (s : str).

Definition writerow (file : list (list field)) (row : list field)
  : list (list field) :=
  file ++ [row].

Definition write_body (st : list (list field) * Z) (prediction : str)
  : list (list field) * Z :=
  let '(file, i) := st in
  (writerow file [FInt i; FStr prediction], i + 1).

Definition write_predictions (test_predictions : list str)
  : list (list field) :=
  let file := writerow [] [FStr (s2l "id"); FStr (s2l "region")] in
  (foldl write_body (file, 1) test_predictions).1.

(** ** Notions used to state the properties *)

(** The elements of a list in the order of their first occurrence. *)
Fixpoint first_occurrences (l : list str) : list str :=
  match l with
  | [] => []
  | x :: l' => x :: filter (fun y => y <> x) (first_occurrences l')
  end.

(** The characters of a number: digits and underscores. *)
Definition number_char (c : ascii) : Prop :=
  is_Some (digit_of c) \/ c = "_"%char.

(** A numeral: the text of a decimal integer literal. *)
Definition numeral (s : str) : Prop :=
  Forall number_char s /\ is_Some (decimal_literal s).

Definition numeral_value (s : str) : Z := default 0 (decimal_literal s).

(** A count list as it is printed in a count file: the pairs in
    parentheses, separated by a comma and a blank, in square brackets.
    A pair is given by its two numerals. *)
Definition render_pair (p : str * str) : str :=
  s2l "(" ++ p.1 ++ s2l ", " ++ p.2 ++ s2l ")".

Fixpoint render_items (ps : list (str * str)) : str :=
  match ps with
  | [] => []
  | p :: ps' =>
      match ps' with
      | [] => render_pair p
      | _ => render_pair p ++ s2l ", " ++ render_items ps'
      end
  end.

Definition render_count_list (ps : list (str * str)) : str :=
  s2l "[" ++ render_items ps ++ s2l "]".

(** A record line: the label, further fields, the quoted count list and
    the end of the line. *)
Record record : Type := {
  rec_label : str;
  rec_fields : str;
  rec_pairs : list (str * str)
}.

Definition record_line (r : record) : str :=
  rec_label r ++ comma :: rec_fields r ++
  dquote :: render_count_list (rec_pairs r) ++ [dquote; newline].

Definition record_values (r : record) : list (Z * Z) :=
  map (fun p => (numeral_value p.1, numeral_value p.2)) (rec_pairs r).

(** A well-formed record: no comma in the label, no double quote before
    the count list, numerals in the pairs. *)
Definition wellformed (r : record) : Prop :=
  (comma ∉ rec_label r) /\
  (dquote ∉ rec_label r ++ comma :: rec_fields r) /\
  Forall (fun p => numeral p.1 /\ numeral p.2) (rec_pairs r).

(** Two records, the second with an empty count list. *)
Definition sample_records : list record :=
  [ {| rec_label := s2l "WEST"; rec_fields := s2l "u1,";
       rec_pairs := [(s2l "0", s2l "2"); (s2l "2", s2l "1")] |};
    {| rec_label := s2l "SOUTH"; rec_fields := [];
       rec_pairs := [] |} ].

(** The tokens of a printed pair and of a printed sequence of pairs. *)
Definition pair_tokens (v : Z * Z) : list token :=
  [TLPar; TInt v.1; TComma; TInt v.2; TRPar].

Fixpoint items_tokens (vs : list (Z * Z)) : list token :=
  match vs with
  | [] => []
  | v :: vs' =>
      match vs' with
      | [] => pair_tokens v
      | _ => pair_tokens v ++ TComma :: items_tokens vs'
      end
  end.

Definition pair_value (v : Z * Z) : pyval := PTuple [PInt v.1; PInt v.2].

(** A vocabulary line: the term, a tab, the numeral of the id and the end
    of the line. *)
Definition vocabulary_line (e : str * str) : str :=
  e.1 ++ tab :: e.2 ++ [newline].

(** * Properties *)

(** ** Exceptions and loops *)

Lemma bind_Ok_inv {A B} (m : result A) (k : A -> result B) (b : B) :
  m ≫= k = Ok b -> exists a, m = Ok a /\ k a = Ok b.
Proof. destruct m as [a|e]; simpl; [eauto|discriminate]. Qed.

Lemma is_ok_Ok {A} (a : A) : is_ok (Ok a).
Proof. by exists a. Qed.

Lemma not_is_ok_Raise {A} (e : exn) : ~ is_ok (@Raise A e).
Proof. intros [a Ha]. discriminate. Qed.

Lemma for_each_app {S A} (body : S -> A -> result S) (s : S) (l1 l2 : list A) :
  for_each body s (l1 ++ l2) = for_each body s l1 ≫= fun s' => for_each body s' l2.
Proof.
  revert s. induction l1 as [|x l1 IH]; intros s; simpl; [done|].
  destruct (body s x); simpl; [apply IH|done].
Qed.

Lemma map_result_length {A B} (f : A -> result B) (l : list A) (ys : list B) :
  map_result f l = Ok ys -> length ys = length l.
Proof.
  revert ys. induction l as [|x l IH]; intros ys; simpl.
  - intros [= <-]. done.
  - destruct (f x) as [y|]; simpl; [|discriminate].
    destruct (map_result f l) as [ys'|]; simpl; [|discriminate].
    intros [= <-]. simpl. f_equal. by apply IH.
Qed.

Lemma map_result_Ok_Forall {A B} (f : A -> result B) (l : list A) (ys : list B) :
  map_result f l = Ok ys -> Forall2 (fun x y => f x = Ok y) l ys.
Proof.
  revert ys. induction l as [|x l IH]; intros ys; simpl.
  - intros [= <-]. constructor.
  - destruct (f x) as [y|] eqn:Hx; simpl; [|discriminate].
    destruct (map_result f l) as [ys'|]; simpl; [|discriminate].
    intros [= <-]. constructor; [done|by apply IH].
Qed.

Lemma map_result_Forall_Ok {A B} (f : A -> result B) (l : list A) (ys : list B) :
  Forall2 (fun x y => f x = Ok y) l ys -> map_result f l = Ok ys.
Proof.
  induction 1 as [|x y l ys Hx _ IH]; simpl; [done|].
  by rewrite Hx, IH.
Qed.

Lemma map_result_Raise {A B} (f : A -> result B) (l : list A) (x : A) (e : exn) :
  x ∈ l -> f x = Raise e -> exists e', map_result f l = Raise e'.
Proof.
  intros Hin Hx. induction l as [|x' l IH]; [by apply elem_of_nil in Hin|].
  apply elem_of_cons in Hin as [->|Hin]; simpl.
  - rewrite Hx. simpl. eauto.
  - destruct (f x') as [y|e1]; simpl; [|eauto].
    destruct (IH Hin) as [e' ->]. simpl. eauto.
Qed.

(** The first failing element decides the exception. *)
Lemma map_result_first_Raise {A B} (f : A -> result B) (l1 l2 : list A)
    (x : A) (e : exn) :
  Forall (fun x => is_ok (f x)) l1 -> f x = Raise e ->
  map_result f (l1 ++ x :: l2) = Raise e.
Proof.
  intros Hl1 Hx. induction Hl1 as [|x' l1 [y Hy] _ IH]; simpl.
  - by rewrite Hx.
  - by rewrite Hy, IH.
Qed.

Lemma map_result_is_ok {A B} (f : A -> result B) (l : list A) :
  Forall (fun x => is_ok (f x)) l <-> is_ok (map_result f l).
Proof.
  split.
  - induction 1 as [|x l [y Hy] _ [ys Hys]]; simpl; [apply is_ok_Ok|].
    rewrite Hy, Hys. apply is_ok_Ok.
  - intros [ys Hys]. apply map_result_Ok_Forall in Hys.
    induction Hys; constructor; [by eexists|done].
Qed.

(** ** Dictionaries *)

Section DictFacts.
Context {K V : Type} `{EqDecision K}.
Implicit Types (d : dict K V) (k : K) (v : V).

Lemma dict_get_set_eq d k v : dict_get (dict_set d k v) k = Some v.
Proof.
  induction d as [|[k' v'] d IH]; simpl.
  - by rewrite decide_True.
  - destruct (decide (k' = k)) as [->|Hne]; simpl.
    + by rewrite decide_True.
    + by rewrite decide_False.
Qed.

Lemma dict_get_set_ne d k k' v :
  k <> k' -> dict_get (dict_set d k v) k' = dict_get d k'.
Proof.
  intros Hne. induction d as [|[k0 v0] d IH]; simpl.
  - by rewrite decide_False.
  - destruct (decide (k0 = k)) as [->|Hne0]; simpl.
    + by rewrite !decide_False.
    + destruct (decide (k0 = k')); [done|apply IH].
Qed.

Lemma dict_get_None d k : dict_get d k = None <-> k ∉ dict_keys d.
Proof.
  unfold dict_keys. induction d as [|[k' v'] d IH]; simpl.
  - split; [intros _; apply not_elem_of_nil|done].
  - rewrite not_elem_of_cons. destruct (decide (k' = k)) as [->|Hne].
    + split; [done|]. intros [? _]. done.
    + rewrite IH. split; [intros ?; split; [congruence|done]|by intros [_ ?]].
Qed.

Lemma dict_keys_set d k v :
  dict_keys (dict_set d k v) =
    if dict_contains d k then dict_keys d else dict_keys d ++ [k].
Proof.
  unfold dict_contains, dict_keys.
  induction d as [|[k' v'] d IH]; simpl; [done|].
  destruct (decide (k' = k)) as [->|Hne]; simpl; [done|].
  rewrite IH. by destruct (dict_get d k).
Qed.

Lemma dict_keys_NoDup_set d k v :
  NoDup (dict_keys d) -> NoDup (dict_keys (dict_set d k v)).
Proof.
  intros Hnd. rewrite dict_keys_set. unfold dict_contains.
  destruct (dict_get d k) eqn:Hg; [done|].
  apply dict_get_None in Hg.
  apply NoDup_app. split; [done|]. split.
  - intros x Hx Hin. apply list_elem_of_singleton in Hin. by subst.
  - apply NoDup_singleton.
Qed.

Lemma dict_get_elem_of d k v :
  NoDup (dict_keys d) -> dict_get d k = Some v <-> (k, v) ∈ d.
Proof.
  unfold dict_keys. induction d as [|[k' v'] d IH]; simpl; intros Hnd.
  - split; [done|]. intros Hin. by apply elem_of_nil in Hin.
  - apply NoDup_cons in Hnd as [Hk' Hnd]. rewrite elem_of_cons.
    destruct (decide (k' = k)) as [->|Hne].
    + split; [intros [= ->]; by left|].
      intros [[= ->]|Hin]; [done|].
      exfalso. apply Hk'. apply list_elem_of_fmap. by exists (k, v).
    + rewrite (IH Hnd). split; [by right|].
      intros [[= -> ->]|Hin]; [done|done].
Qed.
End DictFacts.

(** ** [clean_count_and_labels] and the per-record decoder *)

Lemma split_on_nonempty (sep : ascii) (s : str) :
  exists f fs, split_on sep s = f :: fs.
Proof.
  destruct s as [|c s]; simpl; [eauto|].
  destruct (decide (c = sep)); [eauto|]. destruct (split_on sep s); eauto.
Qed.

Lemma label_before_comma (line : str) :
  index (split_on comma line) 0 = Ok (before_comma line).
Proof.
  unfold index. induction line as [|c s IH]; simpl; [done|].
  destruct (decide (c = comma)); simpl; [done|].
  destruct (split_on comma s) as [|f fs]; simpl in *; [done|].
  by injection IH as ->.
Qed.

Lemma inner_body_step (count_dict : dict pyval pyval) (i : nat) (j : Z)
    (count : list (list pyval)) (row : list pyval) :
  count !! i = Some row ->
  inner_body count_dict i count j =
    Ok (<[i := row ++ [default (PInt 0) (dict_get count_dict (PInt j))]]> count).
Proof.
  intros Hi. unfold inner_body, append_at, index.
  destruct (dict_get count_dict (PInt j)); rewrite Hi; reflexivity.
Qed.

(** The inner loop appends to row [i] one entry per vocabulary column. *)
Lemma inner_loop (count_dict : dict pyval pyval) (i : nat) (values : list Z)
    (count : list (list pyval)) (row : list pyval) :
  count !! i = Some row ->
  for_each (inner_body count_dict i) count values =
    Ok (<[i := row ++ map (fun j => default (PInt 0) (dict_get count_dict (PInt j)))
                         values]> count).
Proof.
  revert count row. induction values as [|j values IH]; intros count row Hi; simpl.
  - rewrite app_nil_r. by rewrite list_insert_id.
  - rewrite (inner_body_step _ _ _ _ _ Hi). simpl.
    rewrite (IH _ (row ++ [default (PInt 0) (dict_get count_dict (PInt j))])).
    + rewrite list_insert_insert_eq. by rewrite <- app_assoc.
    + apply list_lookup_insert_eq. by eapply lookup_lt_Some.
Qed.

(** One turn of the outer loop on a state whose row [i] is still empty. *)
Lemma outer_body_decode (dictionary : dict str Z) (line : str)
    (count : list (list pyval)) (labels : list str) (i : nat) :
  count !! i = Some [] ->
  outer_body dictionary (count, labels, i) line =
    decode_line dictionary line ≫= fun r =>
      Ok (<[i := r.1]> count, labels ++ [r.2], S i).
Proof.
  intros Hi. unfold outer_body, decode_line.
  rewrite label_before_comma. simpl.
  destruct (search_group1 line) as [payload|]; simpl; [|done].
  destruct (literal_eval payload) as [count_list|]; simpl; [|done].
  destruct (dict_comprehension count_list) as [count_dict|]; simpl; [|done].
  rewrite (inner_loop _ _ _ _ [] Hi). simpl. done.
Qed.

Lemma outer_loop (dictionary : dict str Z) (lines : list str)
    (rows : list (list pyval)) (labels : list str) (rest : nat) :
  for_each (outer_body dictionary)
    (rows ++ replicate (length lines + rest) [], labels, length rows) lines =
  decode_all dictionary lines ≫= fun rs =>
    Ok (rows ++ map fst rs ++ replicate rest [], labels ++ map snd rs,
        (length rows + length lines)%nat).
Proof.
  unfold decode_all.
  revert rows labels. induction lines as [|line lines IH]; intros rows labels.
  - simpl. rewrite app_nil_r. do 3 f_equal. lia.
  - cbn [for_each map_result].
    rewrite outer_body_decode.
    2:{ rewrite lookup_app_r by lia. by rewrite Nat.sub_diag. }
    destruct (decode_line dictionary line) as [[row label]|]; simpl; [|done].
    replace (<[length rows := row]> (rows ++ [] :: replicate (length lines + rest) []))
      with ((rows ++ [row]) ++ replicate (length lines + rest) []).
    2:{ rewrite <- app_assoc. simpl.
        rewrite insert_app_r_alt by lia. by rewrite Nat.sub_diag. }
    replace (S (length rows)) with (length (rows ++ [row]))
      by (rewrite length_app; simpl; lia).
    rewrite IH.
    destruct (map_result (decode_line dictionary) lines) as [rs|]; simpl; [|done].
    rewrite <- !app_assoc. simpl. do 2 f_equal.
    rewrite length_app. simpl. lia.
Qed.

(** [clean_count_and_labels] decodes the lines one by one, in order, and
    returns the rows and the labels side by side. *)
Lemma clean_count_and_labels_decode (raw : list str) (dictionary : dict str Z) :
  clean_count_and_labels raw dictionary =
    decode_all dictionary raw ≫= fun rs => Ok (map fst rs, map snd rs).
Proof.
  unfold clean_count_and_labels.
  pose proof (outer_loop dictionary raw [] [] 0) as Hloop.
  simpl in Hloop. rewrite Nat.add_0_r in Hloop. rewrite Hloop.
  destruct (decode_all dictionary raw) as [rs|]; simpl; [|done].
  by rewrite app_nil_r.
Qed.

(** Row [i] of the result is the row of line [i], label [i] its label. *)
Lemma clean_count_and_labels_rows (raw : list str) (dictionary : dict str Z)
    (count : list (list pyval)) (labels : list str) :
  clean_count_and_labels raw dictionary = Ok (count, labels) ->
  Forall2 (fun line r => decode_line dictionary line = Ok r) raw (zip count labels) /\
  length count = length raw /\ length labels = length raw.
Proof.
  rewrite clean_count_and_labels_decode. intros Hrun.
  apply bind_Ok_inv in Hrun as (rs & Hrs & [= <- <-]).
  pose proof (map_result_length _ _ _ Hrs) as Hlen.
  apply map_result_Ok_Forall in Hrs.
  rewrite !length_map. split; [|done].
  replace (zip (map fst rs) (map snd rs)) with rs; [done|].
  clear. induction rs as [|[row label] rs IH]; simpl; [done|by f_equal].
Qed.

Lemma clean_count_and_labels_is_ok (raw : list str) (dictionary : dict str Z) :
  is_ok (clean_count_and_labels raw dictionary) <->
  Forall (fun line => is_ok (decode_line dictionary line)) raw.
Proof.
  rewrite clean_count_and_labels_decode, map_result_is_ok. unfold decode_all.
  split.
  - intros [r Hr]. apply bind_Ok_inv in Hr as (rs & -> & _). apply is_ok_Ok.
  - intros [rs ->]. simpl. apply is_ok_Ok.
Qed.

Lemma row_of_length (count_dict : dict pyval pyval) (dictionary : dict str Z) :
  length (row_of count_dict dictionary) = length dictionary.
Proof. unfold row_of, dict_values. by rewrite !length_map. Qed.

Lemma decode_line_length (dictionary : dict str Z) (line : str)
    (row : list pyval) (label : str) :
  decode_line dictionary line = Ok (row, label) ->
  length row = length dictionary /\ label = before_comma line.
Proof.
  unfold decode_line. intros Hd.
  apply bind_Ok_inv in Hd as (payload & _ & Hd).
  apply bind_Ok_inv in Hd as (count_list & _ & Hd).
  apply bind_Ok_inv in Hd as (count_dict & _ & [= <- <-]).
  split; [apply row_of_length|done].
Qed.

(** *** Records whose count list is a list of integer pairs *)

Lemma comprehension_pairs (items : list pyval) (l : list (Z * Z))
    (d : dict pyval pyval) :
  mapM as_pair items = Some l ->
  for_each comprehension_body d items =
    Ok (foldl (fun d p => dict_set d (PInt p.1) (PInt p.2)) d l).
Proof.
  revert l d. induction items as [|v items IH]; intros l d; simpl.
  - intros [= <-]. done.
  - destruct (as_pair v) as [[a b]|] eqn:Hv; simpl; [|discriminate].
    destruct (mapM as_pair items) as [l'|] eqn:Hl'; simpl; [|discriminate].
    intros [= <-].
    assert (Hbody : comprehension_body d v = Ok (dict_set d (PInt a) (PInt b))).
    { unfold as_pair in Hv.
      destruct v as [z|[|[x| |] [|[y| |] [|]]]|[|[x| |] [|[y| |] [|]]]];
        try discriminate; injection Hv as <- <-; reflexivity. }
    rewrite Hbody. simpl. by apply IH.
Qed.

Lemma dict_comprehension_pairs (v : pyval) (l : list (Z * Z)) :
  as_pairs v = Some l -> dict_comprehension v = Ok (count_dict_of_pairs l).
Proof.
  unfold as_pairs, dict_comprehension, count_dict_of_pairs.
  destruct v as [z|items|items]; [discriminate| |]; simpl;
    apply comprehension_pairs.
Qed.

Lemma decode_line_pairs (dictionary : dict str Z) (line : str) (l : list (Z * Z)) :
  pairs_of_line line = Some l ->
  decode_line dictionary line =
    Ok (row_of (count_dict_of_pairs l) dictionary, before_comma line).
Proof.
  unfold pairs_of_line, decode_line. intros Hl.
  destruct (search_group1 line) as [payload|]; simpl in *; [|discriminate].
  destruct (literal_eval payload) as [v|]; simpl in *; [|discriminate].
  by rewrite (dict_comprehension_pairs _ _ Hl).
Qed.

Lemma dict_get_pairs (j : Z) (l : list (Z * Z)) (d : dict pyval pyval) :
  dict_get (foldl (fun d p => dict_set d (PInt p.1) (PInt p.2)) d l) (PInt j) =
    match last_count j l with
    | Some c => Some (PInt c)
    | None => dict_get d (PInt j)
    end.
Proof.
  revert d. induction l as [|[a b] l IH]; intros d; simpl; [done|].
  rewrite IH. destruct (last_count j l); [done|].
  destruct (decide (a = j)) as [->|Hne].
  - apply dict_get_set_eq.
  - apply dict_get_set_ne. congruence.
Qed.

Lemma row_of_pairs (l : list (Z * Z)) (dictionary : dict str Z) :
  row_of (count_dict_of_pairs l) dictionary =
    int_row (map (fun j => default 0 (last_count j l)) (dict_values dictionary)).
Proof.
  unfold row_of, int_row, count_dict_of_pairs. rewrite map_map.
  apply map_ext. intros j. rewrite dict_get_pairs. simpl.
  by destruct (last_count j l).
Qed.

Lemma last_count_None (j : Z) (l : list (Z * Z)) :
  last_count j l = None <-> j ∉ map fst l.
Proof.
  induction l as [|[a b] l IH]; simpl.
  - split; [intros _; apply not_elem_of_nil|done].
  - rewrite not_elem_of_cons. destruct (last_count j l) as [c|].
    + split; [discriminate|]. intros [_ Hin]. by apply IH in Hin.
    + destruct (decide (a = j)) as [->|Hne].
      * split; [discriminate|]. by intros [? _].
      * split; [|done]. intros _. split; [congruence|]. by apply IH.
Qed.

Lemma last_count_app (j : Z) (l1 l2 : list (Z * Z)) :
  last_count j (l1 ++ l2) =
    match last_count j l2 with
    | Some c => Some c
    | None => last_count j l1
    end.
Proof.
  induction l1 as [|[a b] l1 IH]; simpl.
  - by destruct (last_count j l2).
  - rewrite IH. by destruct (last_count j l2).
Qed.

Lemma last_count_filter_ne (j t : Z) (l : list (Z * Z)) :
  j <> t -> last_count j (filter (fun p => p.1 <> t) l) = last_count j l.
Proof.
  intros Hj. induction l as [|[a b] l IH]; simpl; [done|].
  rewrite filter_cons. simpl. destruct (decide (a <> t)) as [Ha|Ha]; simpl.
  - by rewrite IH.
  - rewrite IH. destruct (last_count j l); [done|].
    destruct (decide (a = j)) as [->|]; [done|done].
Qed.

(** *** Sums of rows *)

Lemma sum_Z_map_add {A} (g h : A -> Z) (l : list A) :
  sum_Z (map (fun x => g x + h x) l) = sum_Z (map g l) + sum_Z (map h l).
Proof. induction l as [|x l IH]; simpl; lia. Qed.

Lemma sum_Z_indicator (a b : Z) (values : list Z) :
  NoDup values -> a ∈ values ->
  sum_Z (map (fun j => if decide (a = j) then b else 0) values) = b.
Proof.
  induction 1 as [|j values Hj Hnd IH]; intros Hin.
  - by apply elem_of_nil in Hin.
  - simpl. destruct (decide (a = j)) as [->|Hne].
    + assert (Hz : sum_Z (map (fun j0 => if decide (j = j0) then b else 0) values) = 0).
      { clear IH Hin Hnd. induction values as [|j' values IH]; simpl; [done|].
        apply not_elem_of_cons in Hj as [Hne Hj].
        rewrite decide_False by done. rewrite IH by done. lia. }
      lia.
    + apply elem_of_cons in Hin as [?|Hin]; [done|]. rewrite IH by done. lia.
Qed.

Lemma sum_last_count (values : list Z) (l : list (Z * Z)) :
  NoDup values -> NoDup (map fst l) -> Forall (fun p => p.1 ∈ values) l ->
  sum_Z (map (fun j => default 0 (last_count j l)) values) = sum_Z (map snd l).
Proof.
  intros Hvalues. induction l as [|[a b] l IH]; simpl; intros Hnd Hvalid.
  - induction values as [|j values IHv]; simpl; [done|].
    apply NoDup_cons in Hvalues as [_ Hvalues]. rewrite IHv by done. lia.
  - apply NoDup_cons in Hnd as [Ha Hnd].
    apply Forall_cons in Hvalid as [Hin Hvalid]. simpl in Hin.
    rewrite <- (IH Hnd Hvalid).
    transitivity (sum_Z (map (fun j => (if decide (a = j) then b else 0) +
                                       default 0 (last_count j l)) values)).
    2:{ rewrite sum_Z_map_add. by rewrite sum_Z_indicator. }
    f_equal. apply map_ext. intros j.
    destruct (decide (a = j)) as [<-|Hne].
    + apply last_count_None in Ha. rewrite Ha. simpl. lia.
    + destruct (last_count j l); simpl; lia.
Qed.

(** ** The claims about [clean_count_and_labels] *)

(** C1 (as amended). A record line decoded against a vocabulary gives a row
    with one entry per vocabulary entry; when the record's count list is a
    list of integer pairs whose term-ids are valid ids of the vocabulary
    and pairwise distinct, and the ids of the vocabulary are pairwise
    distinct, the entries of the row sum to the counts of the pair list. *)
Theorem row_length_and_sum (dictionary : dict str Z) (raw : list str)
    (count : list (list pyval)) (labels : list str)
    (i : nat) (line : str) (row : list pyval) (l : list (Z * Z)) :
  clean_count_and_labels raw dictionary = Ok (count, labels) ->
  raw !! i = Some line ->
  count !! i = Some row ->
  pairs_of_line line = Some l ->
  Forall (fun p => p.1 ∈ dict_values dictionary) l ->
  NoDup (map fst l) ->
  NoDup (dict_values dictionary) ->
  length row = length dictionary /\
  exists zs, row = int_row zs /\ sum_Z zs = sum_Z (map snd l).
Proof.
  intros Hrun Hline Hrow Hl Hvalid Hids Hvalues.
  apply clean_count_and_labels_rows in Hrun as (Hrows & Hlen1 & Hlen2).
  destruct (lookup_lt_is_Some_2 labels i) as [label Hlabel].
  { rewrite Hlen2. by eapply lookup_lt_Some. }
  assert (Hi : zip count labels !! i = Some (row, label)).
  { apply lookup_zip_with_Some. eauto. }
  pose proof (Forall2_lookup_lr _ _ _ _ _ _ Hrows Hline Hi) as Hd.
  simpl in Hd. rewrite (decode_line_pairs _ _ _ Hl) in Hd. injection Hd as <- _.
  split; [apply row_of_length|].
  rewrite row_of_pairs. eexists. split; [reflexivity|].
  by apply sum_last_count.
Qed.

Lemma build_fails_on_bad_line (dictionary : dict str Z) (raw : list str)
    (line : str) (e : exn) :
  line ∈ raw -> decode_line dictionary line = Raise e ->
  exists e', clean_count_and_labels raw dictionary = Raise e'.
Proof.
  intros Hin Hline. rewrite clean_count_and_labels_decode.
  destruct (map_result_Raise _ _ _ _ Hin Hline) as [e' He'].
  unfold decode_all. rewrite He'. simpl. eauto.
Qed.

(** C4. When the decoding of one line fails, the whole build fails, with
    the exception of the first failing line; a build that succeeds has
    decoded every line and returns one row and one label per line. *)
Theorem decode_failure_aborts_build (dictionary : dict str Z) (raw : list str) :
  (forall line e, line ∈ raw -> decode_line dictionary line = Raise e ->
     exists e', clean_count_and_labels raw dictionary = Raise e') /\
  (forall l1 line l2 e,
     raw = l1 ++ line :: l2 ->
     Forall (fun line' => is_ok (decode_line dictionary line')) l1 ->
     decode_line dictionary line = Raise e ->
     clean_count_and_labels raw dictionary = Raise e) /\
  (forall count labels,
     clean_count_and_labels raw dictionary = Ok (count, labels) ->
     length count = length raw /\ length labels = length raw /\
     Forall (fun line => is_ok (decode_line dictionary line)) raw).
Proof.
  split; [|split].
  - intros line e. apply build_fails_on_bad_line.
  - intros l1 line l2 e -> Hl1 Hline. rewrite clean_count_and_labels_decode.
    unfold decode_all. by rewrite (map_result_first_Raise _ _ _ _ _ Hl1 Hline).
  - intros count labels Hrun.
    assert (Hok : is_ok (clean_count_and_labels raw dictionary)) by by eexists.
    apply clean_count_and_labels_is_ok in Hok.
    apply clean_count_and_labels_rows in Hrun as (_ & ? & ?). done.
Qed.

(** C5. A pair whose term-id is not an id of the vocabulary raises nothing
    and reaches no column: the record decodes to the row it would have
    without the pairs of that term-id. *)
Theorem out_of_range_id_ignored (dictionary : dict str Z) (line : str)
    (l : list (Z * Z)) (t : Z) :
  pairs_of_line line = Some l ->
  t ∈ map fst l ->
  t ∉ dict_values dictionary ->
  let row := row_of (count_dict_of_pairs (filter (fun p => p.1 <> t) l)) dictionary in
  decode_line dictionary line = Ok (row, before_comma line) /\
  clean_count_and_labels [line] dictionary = Ok ([row], [before_comma line]).
Proof.
  intros Hl _ Ht row.
  assert (Hd : decode_line dictionary line = Ok (row, before_comma line)).
  { rewrite (decode_line_pairs _ _ _ Hl). do 2 f_equal.
    unfold row. rewrite !row_of_pairs. f_equal.
    apply map_ext_in. intros j Hj. apply list_elem_of_In in Hj.
    f_equal. symmetry.
    apply last_count_filter_ne. by intros ->. }
  split; [done|].
  rewrite clean_count_and_labels_decode. unfold decode_all. simpl.
  by rewrite Hd.
Qed.

(** C9. When several pairs of a record carry the same term-id, the column
    of that term-id holds the count of the last of them. *)
Theorem duplicate_term_id_last_wins (dictionary : dict str Z) (line : str)
    (l1 l2 : list (Z * Z)) (t c : Z) (j : nat) :
  pairs_of_line line = Some (l1 ++ (t, c) :: l2) ->
  t ∉ map fst l2 ->
  dict_values dictionary !! j = Some t ->
  exists row,
    decode_line dictionary line = Ok (row, before_comma line) /\
    clean_count_and_labels [line] dictionary = Ok ([row], [before_comma line]) /\
    row !! j = Some (PInt c).
Proof.
  intros Hl Ht Hj. eexists. split; [by apply decode_line_pairs|]. split.
  - rewrite clean_count_and_labels_decode. unfold decode_all. simpl.
    by rewrite (decode_line_pairs _ _ _ Hl).
  - rewrite row_of_pairs. unfold int_row. rewrite !list_lookup_fmap, Hj. simpl.
    rewrite last_count_app. simpl.
    apply last_count_None in Ht. rewrite Ht. by rewrite decide_True.
Qed.

Lemma before_comma_spec (line : str) :
  (comma ∉ before_comma line) /\
  (line = before_comma line \/
   exists rest, line = before_comma line ++ comma :: rest).
Proof.
  induction line as [|c s [IH1 IH2]]; simpl.
  - split; [apply not_elem_of_nil|by left].
  - destruct (decide (c = comma)) as [->|Hne].
    + split; [apply not_elem_of_nil|]. right. by exists s.
    + split.
      * apply not_elem_of_cons. split; [congruence|done].
      * destruct IH2 as [IH2|[rest IH2]]; [left|right; exists rest];
          simpl; by rewrite <- IH2.
Qed.

(** C10. Whatever the dataset, a build that returns gives one label per
    input line, the text before the first comma of that line (the whole
    line when it has no comma); and the build returns as soon as every
    line decodes. *)
Theorem one_label_per_line (dictionary : dict str Z) (raw : list str) :
  (forall count labels,
     clean_count_and_labels raw dictionary = Ok (count, labels) ->
     labels = map before_comma raw /\ length labels = length raw) /\
  (Forall (fun line => is_ok (decode_line dictionary line)) raw ->
   exists count,
     clean_count_and_labels raw dictionary = Ok (count, map before_comma raw)) /\
  (forall line,
     (comma ∉ before_comma line) /\
     (line = before_comma line \/
      exists rest, line = before_comma line ++ comma :: rest)).
Proof.
  assert (Hlabels : forall count labels,
    clean_count_and_labels raw dictionary = Ok (count, labels) ->
    labels = map before_comma raw /\ length labels = length raw).
  { intros count labels Hrun.
    destruct (clean_count_and_labels_rows _ _ _ _ Hrun) as (Hrows & Hlen1 & Hlen2).
    split; [|done].
    clear Hrun. revert count labels Hrows Hlen1 Hlen2.
    induction raw as [|line raw IH]; intros count labels Hrows Hlen1 Hlen2.
    - by destruct labels.
    - destruct count as [|row count]; [done|].
      destruct labels as [|label labels]; [done|]. simpl in *.
      apply Forall2_cons in Hrows as [Hline Hrows].
      apply decode_line_length in Hline as [_ ->].
      f_equal. apply (IH count); [done|lia|lia]. }
  split; [done|]. split; [|apply before_comma_spec].
  intros Hok. apply clean_count_and_labels_is_ok in Hok as [[count labels] Hrun].
  exists count. destruct (Hlabels _ _ Hrun) as [-> _]. done.
Qed.

(** *** The claims at the sample data *)

Ltac by_computation :=
  first [ vm_compute; reflexivity
        | apply (bool_decide_unpack _); vm_compute; exact I ].

Lemma row_length_and_sum_witness :
  length [PInt 2; PInt 0; PInt 1] = length sample_vocabulary /\
  exists zs, [PInt 2; PInt 0; PInt 1] = int_row zs /\
             sum_Z zs = sum_Z (map snd [(0, 2); (2, 1)]).
Proof.
  apply (row_length_and_sum sample_vocabulary [line_plain]
           [[PInt 2; PInt 0; PInt 1]] [s2l "X"] 0 line_plain);
    by_computation.
Defined.

(** C1 as stated fails: the term-ids of [line_repeated] are valid ids of the
    sample vocabulary, its counts sum to 3, its row sums to 2. *)
Lemma row_sum_counterexample :
  clean_count_and_labels [line_repeated] sample_vocabulary =
    Ok ([int_row [2; 0; 0]], [s2l "Y"]) /\
  pairs_of_line line_repeated = Some [(0, 1); (0, 2)] /\
  Forall (fun p => p.1 ∈ dict_values sample_vocabulary) [(0, 1); (0, 2)] /\
  sum_Z [2; 0; 0] <> sum_Z (map snd [(0, 1); (0, 2)]).
Proof.
  split; [by_computation|]. split; [by_computation|].
  split; [by_computation|]. vm_compute. discriminate.
Qed.

(** The sum also differs when two terms of the vocabulary share an id: the
    count of that id then fills two columns. *)
Example row_sum_shared_id :
  clean_count_and_labels [line_plain] [(s2l "a", 0); (s2l "b", 0)] =
    Ok ([int_row [2; 2]], [s2l "X"]) /\
  pairs_of_line line_plain = Some [(0, 2); (2, 1)].
Proof. split; by_computation. Qed.

Lemma decode_failure_aborts_build_witness :
  (exists e', clean_count_and_labels [line_plain; line_malformed; line_plain]
                sample_vocabulary = Raise e') /\
  clean_count_and_labels [line_plain; line_malformed; line_unquoted]
    sample_vocabulary = Raise LiteralError /\
  (length [[PInt 2; PInt 0; PInt 1]] = length [line_plain] /\
   length [s2l "X"] = length [line_plain] /\
   Forall (fun line => is_ok (decode_line sample_vocabulary line)) [line_plain]).
Proof.
  split; [|split].
  - apply (proj1 (decode_failure_aborts_build sample_vocabulary _)
             line_malformed LiteralError).
    + apply (bool_decide_unpack _). vm_compute. exact I.
    + vm_compute. reflexivity.
  - apply (proj1 (proj2 (decode_failure_aborts_build sample_vocabulary _))
             [line_plain] line_malformed [line_unquoted] LiteralError).
    + reflexivity.
    + repeat constructor. eexists. vm_compute. reflexivity.
    + vm_compute. reflexivity.
  - apply (proj2 (proj2 (decode_failure_aborts_build sample_vocabulary _))).
    vm_compute. reflexivity.
Defined.

Lemma out_of_range_id_ignored_witness :
  decode_line sample_vocabulary line_unknown_id =
    Ok (row_of (count_dict_of_pairs (filter (fun p => p.1 <> 9) [(1, 5); (9, 4)]))
          sample_vocabulary,
        before_comma line_unknown_id) /\
  clean_count_and_labels [line_unknown_id] sample_vocabulary =
    Ok ([row_of (count_dict_of_pairs (filter (fun p => p.1 <> 9) [(1, 5); (9, 4)]))
           sample_vocabulary],
        [before_comma line_unknown_id]).
Proof.
  apply (out_of_range_id_ignored sample_vocabulary line_unknown_id
           [(1, 5); (9, 4)] 9).
  - vm_compute. reflexivity.
  - apply (bool_decide_unpack _). vm_compute. exact I.
  - apply (bool_decide_unpack _). vm_compute. exact I.
Defined.

Lemma duplicate_term_id_last_wins_witness :
  exists row,
    decode_line sample_vocabulary line_repeated =
      Ok (row, before_comma line_repeated) /\
    clean_count_and_labels [line_repeated] sample_vocabulary =
      Ok ([row], [before_comma line_repeated]) /\
    row !! 0%nat = Some (PInt 2).
Proof.
  apply (duplicate_term_id_last_wins sample_vocabulary line_repeated
           [(0, 1)] [] 0 2 0).
  - vm_compute. reflexivity.
  - apply (bool_decide_unpack _). vm_compute. exact I.
  - vm_compute. reflexivity.
Defined.

Lemma one_label_per_line_witness :
  ([s2l "X"; s2l "Z"] = map before_comma [line_plain; line_unknown_id] /\
   length [s2l "X"; s2l "Z"] = length [line_plain; line_unknown_id]) /\
  (exists count,
     clean_count_and_labels [line_plain; line_unknown_id] sample_vocabulary =
       Ok (count, map before_comma [line_plain; line_unknown_id])).
Proof.
  split.
  - apply (proj1 (one_label_per_line sample_vocabulary _)
             [[PInt 2; PInt 0; PInt 1]; [PInt 0; PInt 5; PInt 0]]).
    vm_compute. reflexivity.
  - apply (proj1 (proj2 (one_label_per_line sample_vocabulary _))).
    repeat constructor; eexists; vm_compute; reflexivity.
Defined.

(** ** The quoted payload of a line *)

Lemma until_quote_Some (s g : str) :
  until_quote s = Some g ->
  exists post, s = g ++ dquote :: post /\ (dquote ∉ g) /\ (newline ∉ g).
Proof.
  revert g. induction s as [|c s IH]; intros g; simpl; [discriminate|].
  destruct (decide (c = dquote)) as [->|Hq].
  - intros [= <-]. exists s. split; [done|]. split; apply not_elem_of_nil.
  - destruct (decide (c = newline)) as [->|Hn]; [discriminate|].
    destruct (until_quote s) as [g'|]; simpl; [|discriminate].
    intros [= <-]. destruct (IH g' eq_refl) as (post & -> & Hq' & Hn').
    exists post. split; [done|].
    split; apply not_elem_of_cons; split; congruence || done.
Qed.

Lemma until_quote_None (s mid post : str) :
  until_quote s = None -> s = mid ++ dquote :: post -> newline ∈ mid.
Proof.
  revert mid. induction s as [|c s IH]; intros mid; simpl.
  - intros _ Hs. by destruct mid.
  - destruct (decide (c = dquote)) as [->|Hq]; [discriminate|].
    destruct mid as [|c' mid]; simpl; intros Hu Hs; injection Hs as Hc Hs;
      [done|subst c'].
    destruct (decide (c = newline)) as [->|Hn]; [by left|].
    right. apply IH; [|done]. by destruct (until_quote s).
Qed.

Lemma until_quote_app (g post : str) :
  dquote ∉ g -> newline ∉ g -> until_quote (g ++ dquote :: post) = Some g.
Proof.
  induction g as [|c g IH]; simpl; intros Hq Hn; [done|].
  apply not_elem_of_cons in Hq as [Hq1 Hq2].
  apply not_elem_of_cons in Hn as [Hn1 Hn2].
  rewrite !decide_False by congruence. by rewrite IH.
Qed.

Lemma has_quoted_cons (c : ascii) (s : str) :
  has_quoted s -> has_quoted (c :: s).
Proof. intros (pre & mid & post & -> & Hn). by exists (c :: pre), mid, post. Qed.

Lemma has_quoted_cons_inv (c : ascii) (s : str) :
  has_quoted (c :: s) ->
  (c = dquote /\ exists mid post, s = mid ++ dquote :: post /\ (newline ∉ mid)) \/
  has_quoted s.
Proof.
  intros (pre & mid & post & Hs & Hn). destruct pre as [|c' pre]; simpl in Hs.
  - injection Hs as -> ->. left. eauto.
  - injection Hs as -> ->. right. by exists pre, mid, post.
Qed.

Lemma re_search_quoted_None (s : str) :
  re_search_quoted s = None <-> ~ has_quoted s.
Proof.
  split.
  - induction s as [|c s IH]; simpl; intros Hs Hq.
    + destruct Hq as (pre & mid & post & Hq & _). by destruct pre.
    + apply has_quoted_cons_inv in Hq as [(-> & mid & post & Heq & Hn)|Hq].
      * rewrite decide_True in Hs by done.
        destruct (until_quote s) eqn:Hu; [discriminate|].
        apply Hn. by eapply until_quote_None.
      * apply IH; [|done].
        destruct (decide (c = dquote)); [|done]. by destruct (until_quote s).
  - induction s as [|c s IH]; simpl; intros Hq; [done|].
    assert (Hs : re_search_quoted s = None).
    { apply IH. intros H. by apply Hq, has_quoted_cons. }
    destruct (decide (c = dquote)) as [->|]; [|done].
    destruct (until_quote s) as [g|] eqn:Hu; [|done].
    exfalso. apply Hq. apply until_quote_Some in Hu as (post & -> & _ & Hn).
    by exists [], g, post.
Qed.

Lemma re_search_quoted_Some (s g : str) :
  re_search_quoted s = Some g <-> first_quoted s g.
Proof.
  split.
  - induction s as [|c s IH]; simpl; [discriminate|]. intros Hs.
    assert (Hrec : re_search_quoted s = Some g ->
                   (c = dquote -> until_quote s = None) ->
                   first_quoted (c :: s) g).
    { intros Hs' Hc. destruct (IH Hs') as (pre & post & -> & Hq & Hn & Hpre).
      exists (c :: pre), post. split; [done|]. split; [done|]. split; [done|].
      simpl. intros H. apply has_quoted_cons_inv in H
        as [(-> & mid & post' & Heq & Hmid)|H]; [|done].
      apply Hmid.
      apply (until_quote_None _ mid (post' ++ g ++ dquote :: post) (Hc eq_refl)).
      replace (pre ++ dquote :: g ++ dquote :: post)
        with ((pre ++ [dquote]) ++ g ++ dquote :: post) by (by rewrite <- app_assoc).
      rewrite Heq. by rewrite <- app_assoc. }
    destruct (decide (c = dquote)) as [->|Hc]; [|by apply Hrec].
    destruct (until_quote s) as [g'|] eqn:Hu; [|by apply Hrec].
    injection Hs as ->. apply until_quote_Some in Hu as (post & -> & Hq & Hn).
    exists [], post. split; [done|]. split; [done|]. split; [done|].
    simpl. intros (pre & mid & post' & Heq & _).
    destruct pre as [|? [|? ?]]; simpl in Heq; [|done|done].
    injection Heq as Heq. by destruct mid.
  - intros (pre & post & -> & Hq & Hn & Hpre).
    induction pre as [|c pre IH]; simpl.
    + by rewrite until_quote_app.
    + assert (Hrec : re_search_quoted (pre ++ dquote :: g ++ dquote :: post) = Some g).
      { apply IH. intros H. by apply Hpre, has_quoted_cons. }
      destruct (decide (c = dquote)) as [->|]; [|done].
      destruct (until_quote (pre ++ dquote :: g ++ dquote :: post)) as [g'|] eqn:Hu;
        [|done].
      exfalso. apply Hpre. clear IH Hrec.
      apply until_quote_Some in Hu as (post' & Heq & Hq' & Hn').
      exists [], g'. simpl.
      assert (Hpref : exists rest, pre ++ [dquote] = g' ++ dquote :: rest).
      { clear Hpre Hn Hn'. revert g' Hq' Heq.
        induction pre as [|c pre IH]; intros g' Hq' Heq; simpl in *.
        - destruct g' as [|c' g']; [by exists []|].
          injection Heq as <- _. exfalso. apply Hq'. by left.
        - destruct g' as [|c' g']; simpl in *.
          + injection Heq as -> _. by exists (pre ++ [dquote]).
          + injection Heq as <- Heq. apply not_elem_of_cons in Hq' as [_ Hq'].
            destruct (IH g' Hq' Heq) as [rest ->]. by exists rest. }
      destruct Hpref as [rest ->]. by exists rest.
Qed.

(** C8. A line without a double-quoted substring does not decode: the
    decoder raises on the missing match and every build over a dataset that
    holds the line fails; on any other line the payload handed to the
    literal parser is the first double-quoted substring of the line. *)
Theorem payload_is_first_quoted (dictionary : dict str Z) (line : str) :
  (~ has_quoted line ->
     decode_line dictionary line = Raise AttributeError /\
     (forall raw, line ∈ raw ->
        exists e, clean_count_and_labels raw dictionary = Raise e) /\
     (forall raw, clean_count_and_labels (line :: raw) dictionary =
                  Raise AttributeError)) /\
  (forall payload,
     search_group1 line = Ok payload <-> first_quoted line payload) /\
  (forall row label,
     decode_line dictionary line = Ok (row, label) ->
     exists payload count_list count_dict,
       first_quoted line payload /\
       literal_eval payload = Ok count_list /\
       dict_comprehension count_list = Ok count_dict /\
       row = row_of count_dict dictionary).
Proof.
  split; [|split].
  - intros Hq. apply re_search_quoted_None in Hq.
    assert (Hd : decode_line dictionary line = Raise AttributeError).
    { unfold decode_line, search_group1. by rewrite Hq. }
    split; [done|]. split.
    + intros raw Hin.
      by apply (build_fails_on_bad_line dictionary raw line AttributeError).
    + intros raw. rewrite clean_count_and_labels_decode.
      unfold decode_all. simpl. by rewrite Hd.
  - intros payload. rewrite <- re_search_quoted_Some. unfold search_group1.
    destruct (re_search_quoted line); split; congruence.
  - intros row label Hd. unfold decode_line in Hd.
    apply bind_Ok_inv in Hd as (payload & Hp & Hd).
    apply bind_Ok_inv in Hd as (count_list & Hc & Hd).
    apply bind_Ok_inv in Hd as (count_dict & Hcd & [= <- <-]).
    exists payload, count_list, count_dict. split; [|done].
    apply re_search_quoted_Some. unfold search_group1 in Hp.
    destruct (re_search_quoted line); congruence.
Qed.

Lemma payload_is_first_quoted_witness :
  decode_line sample_vocabulary line_unquoted = Raise AttributeError /\
  (forall raw, line_unquoted ∈ raw ->
     exists e, clean_count_and_labels raw sample_vocabulary = Raise e) /\
  (forall raw, clean_count_and_labels (line_unquoted :: raw) sample_vocabulary =
               Raise AttributeError).
Proof.
  apply (proj1 (payload_is_first_quoted sample_vocabulary line_unquoted)).
  apply re_search_quoted_None. vm_compute. reflexivity.
Defined.

(** ** The vocabulary *)

Lemma word_dict_body_entry (word_dict : dict str Z) (line : str) :
  word_dict_body word_dict line =
    vocab_entry line ≫= fun e => Ok (dict_set word_dict e.1 e.2).
Proof.
  unfold word_dict_body, vocab_entry.
  destruct (index (split_on tab line) 1) as [field|]; simpl; [|done].
  destruct (py_int field) as [id|]; simpl; [|done].
  by destruct (index (split_on tab line) 0).
Qed.

Lemma word_dict_loop (lines : list str) (d : dict str Z) :
  for_each word_dict_body d lines =
    map_result vocab_entry lines ≫= fun es =>
      Ok (foldl (fun d e => dict_set d e.1 e.2) d es).
Proof.
  revert d. induction lines as [|line lines IH]; intros d; simpl; [done|].
  rewrite word_dict_body_entry.
  destruct (vocab_entry line) as [e|]; simpl; [|done].
  rewrite IH. by destruct (map_result vocab_entry lines).
Qed.

Lemma dict_get_fold_other {K V} `{EqDecision K} (es : list (K * V))
    (d : dict K V) (k : K) :
  Forall (fun e => e.1 <> k) es ->
  dict_get (foldl (fun d e => dict_set d e.1 e.2) d es) k = dict_get d k.
Proof.
  intros Hes. revert d. induction Hes as [|e es He _ IH]; intros d; simpl; [done|].
  rewrite IH. by apply dict_get_set_ne.
Qed.

Lemma dict_keys_fold_NoDup {K V} `{EqDecision K} (es : list (K * V))
    (d : dict K V) :
  NoDup (dict_keys d) ->
  NoDup (dict_keys (foldl (fun d e => dict_set d e.1 e.2) d es)).
Proof.
  revert d. induction es as [|e es IH]; intros d Hd; simpl; [done|].
  by apply IH, dict_keys_NoDup_set.
Qed.

(** C6. A term that stands on several lines of the vocabulary source ends
    up with the id of its last line: the loader raises nothing over the
    repetition and keeps one entry for the term. *)
Theorem last_occurrence_wins (before after : list str) (line : str)
    (term : str) (id : Z) :
  Forall (fun l => is_ok (vocab_entry l)) before ->
  vocab_entry line = Ok (term, id) ->
  Forall (fun l => exists e, vocab_entry l = Ok e /\ e.1 <> term) after ->
  exists word_dict,
    build_word_dict (before ++ line :: after) = Ok word_dict /\
    dict_get word_dict term = Some id /\
    NoDup (dict_keys word_dict).
Proof.
  intros Hbefore Hline Hafter.
  apply map_result_is_ok in Hbefore as [es1 Hes1].
  assert (Hes2 : exists es2, map_result vocab_entry after = Ok es2 /\
                             Forall (fun e => e.1 <> term) es2).
  { clear -Hafter. induction Hafter as [|l after (e & He & Hne) _ (es & Hes & Hall)].
    - by exists [].
    - exists (e :: es). simpl. rewrite He, Hes. split; [done|by constructor]. }
  destruct Hes2 as (es2 & Hes2 & Hne).
  assert (Hall : map_result vocab_entry (before ++ line :: after) =
                 Ok (es1 ++ (term, id) :: es2)).
  { apply map_result_Forall_Ok. apply Forall2_app.
    - by apply map_result_Ok_Forall.
    - constructor; [done|]. by apply map_result_Ok_Forall. }
  unfold build_word_dict. rewrite word_dict_loop, Hall. simpl.
  eexists. split; [reflexivity|]. split.
  - rewrite foldl_app. simpl. rewrite dict_get_fold_other by done.
    apply dict_get_set_eq.
  - apply dict_keys_fold_NoDup. apply NoDup_nil_2.
Qed.

Lemma last_occurrence_wins_witness :
  exists word_dict,
    build_word_dict sample_vocabulary_file = Ok word_dict /\
    dict_get word_dict (s2l "a") = Some 7 /\
    NoDup (dict_keys word_dict).
Proof.
  apply (last_occurrence_wins
           [s2l "a" ++ tab :: s2l "0" ++ [newline];
            s2l "b" ++ tab :: s2l "1" ++ [newline]]
           [s2l "c" ++ tab :: s2l "2" ++ [newline]]
           (s2l "a" ++ tab :: s2l "7" ++ [newline]) (s2l "a") 7).
  - repeat constructor; eexists; vm_compute; reflexivity.
  - vm_compute. reflexivity.
  - repeat constructor. eexists. split; [vm_compute; reflexivity|].
    vm_compute. discriminate.
Defined.

(** ** The majority-class baseline *)

Lemma occurrences_nil (label : str) : occurrences label [] = 0.
Proof. reflexivity. Qed.

Lemma occurrences_cons (label l : str) (labels : list str) :
  occurrences label (l :: labels) =
    (if decide (l = label) then 1 else 0) + occurrences label labels.
Proof.
  unfold occurrences. rewrite filter_cons.
  destruct (decide (l = label)); simpl length; lia.
Qed.

Lemma occurrences_app (label : str) (l1 l2 : list str) :
  occurrences label (l1 ++ l2) = occurrences label l1 + occurrences label l2.
Proof.
  induction l1 as [|l l1 IH]; simpl; [by rewrite occurrences_nil|].
  rewrite !occurrences_cons, IH. lia.
Qed.

Lemma occurrences_replicate (label l : str) (n : nat) :
  occurrences label (replicate n l) =
    if decide (l = label) then Z.of_nat n else 0.
Proof.
  induction n as [|n IH]; simpl replicate.
  - rewrite occurrences_nil. by destruct (decide (l = label)).
  - rewrite occurrences_cons, IH. destruct (decide (l = label)); lia.
Qed.

Lemma occurrences_nonneg (label : str) (labels : list str) :
  0 <= occurrences label labels.
Proof. unfold occurrences. lia. Qed.

Lemma occurrences_pos (label : str) (labels : list str) :
  0 < occurrences label labels <-> label ∈ labels.
Proof.
  induction labels as [|l labels IH].
  - rewrite occurrences_nil. split; [lia|]. intros H. by apply elem_of_nil in H.
  - rewrite occurrences_cons, elem_of_cons.
    pose proof (occurrences_nonneg label labels).
    destruct (decide (l = label)) as [->|Hne].
    + split; [by left|lia].
    + rewrite Z.add_0_l, IH. split; [by right|]. intros [?|?]; [congruence|done].
Qed.

(** The counter after the loop: every label of the vector with its number
    of occurrences, and nothing else. *)
Lemma counter_loop_get (labels : list str) (d : dict str Z) (label : str) :
  default 0 (dict_get (foldl counter_incr d labels) label) =
    default 0 (dict_get d label) + occurrences label labels.
Proof.
  revert d. induction labels as [|l labels IH]; intros d; simpl.
  - rewrite occurrences_nil. lia.
  - rewrite IH, occurrences_cons. unfold counter_incr.
    destruct (decide (l = label)) as [->|Hne].
    + rewrite dict_get_set_eq. simpl. lia.
    + rewrite dict_get_set_ne by done. lia.
Qed.

Lemma counter_loop_keys (labels : list str) (d : dict str Z) (label : str) :
  label ∈ dict_keys (foldl counter_incr d labels) <->
  label ∈ dict_keys d \/ label ∈ labels.
Proof.
  revert d. induction labels as [|l labels IH]; intros d; simpl.
  - split; [by left|]. intros [?|H]; [done|by apply elem_of_nil in H].
  - rewrite IH, elem_of_cons. unfold counter_incr. rewrite dict_keys_set.
    unfold dict_contains. destruct (dict_get d l) eqn:Hl.
    + assert (l ∈ dict_keys d).
      { destruct (decide (l ∈ dict_keys d)) as [|Hn]; [done|].
        apply dict_get_None in Hn. congruence. }
      split; [tauto|]. intros [?|[->|?]]; tauto.
    + rewrite elem_of_app, list_elem_of_singleton. tauto.
Qed.

Lemma counter_loop_NoDup (labels : list str) (d : dict str Z) :
  NoDup (dict_keys d) -> NoDup (dict_keys (foldl counter_incr d labels)).
Proof.
  revert d. induction labels as [|l labels IH]; intros d Hd; simpl; [done|].
  apply IH. by apply dict_keys_NoDup_set.
Qed.

Lemma counter_loop_entries (labels : list str) (label : str) (n : Z) :
  (label, n) ∈ foldl counter_incr [] labels <->
  label ∈ labels /\ n = occurrences label labels.
Proof.
  pose proof (counter_loop_NoDup labels [] (NoDup_nil_2 (A := str))) as Hnd.
  pose proof (counter_loop_get labels [] label) as Hget. simpl in Hget.
  assert (Hkeys : label ∈ dict_keys (foldl counter_incr [] labels) <->
                  label ∈ labels).
  { rewrite counter_loop_keys. split; [|by right].
    intros [H|H]; [by apply elem_of_nil in H|done]. }
  rewrite <- (dict_get_elem_of _ _ _ Hnd). split.
  - intros Hn. rewrite Hn in Hget. simpl in Hget. split; [|done].
    apply Hkeys. destruct (decide (label ∈ dict_keys (foldl counter_incr [] labels)))
      as [|Hnot]; [done|].
    apply dict_get_None in Hnot. congruence.
  - intros [Hin ->].
    destruct (dict_get (foldl counter_incr [] labels) label) as [m|] eqn:Hm.
    + simpl in Hget. by subst.
    + apply dict_get_None in Hm. exfalso. by apply Hm, Hkeys.
Qed.

Lemma insert_by_count_Permutation (x : str * Z) (l : list (str * Z)) :
  insert_by_count x l ≡ₚ x :: l.
Proof.
  induction l as [|y l IH]; simpl; [done|].
  destruct (x.2 <? y.2); [|done]. rewrite IH. apply Permutation_swap.
Qed.

Lemma most_common_Permutation (c : dict str Z) : most_common c ≡ₚ c.
Proof.
  unfold most_common. induction c as [|x c IH]; simpl; [done|].
  by rewrite insert_by_count_Permutation, IH.
Qed.

(** The first entry of [most_common] has the largest count. *)
Lemma insert_by_count_head (x : str * Z) (l : list (str * Z)) :
  (forall y l', l = y :: l' -> Forall (fun z => z.2 <= y.2) l) ->
  forall y l', insert_by_count x l = y :: l' ->
               Forall (fun z => z.2 <= y.2) (insert_by_count x l).
Proof.
  intros Hl y l'. destruct l as [|y0 l0]; simpl.
  - intros [= <- <-]. constructor; [lia|constructor].
  - specialize (Hl y0 l0 eq_refl).
    destruct (x.2 <? y0.2) eqn:Hlt.
    + intros [= <- <-]. apply Z.ltb_lt in Hlt.
      apply Forall_cons in Hl as [Hy0 Hl0]. constructor; [lia|].
      rewrite insert_by_count_Permutation. constructor; [lia|done].
    + intros [= <- <-]. apply Z.ltb_ge in Hlt. constructor; [lia|].
      eapply Forall_impl; [exact Hl|]. simpl. intros z Hz. lia.
Qed.

Lemma most_common_head (c : dict str Z) (y : str * Z) (l' : list (str * Z)) :
  most_common c = y :: l' -> Forall (fun z => z.2 <= y.2) c.
Proof.
  intros Hy. rewrite <- (most_common_Permutation c).
  revert y l' Hy. unfold most_common.
  induction c as [|x c IH]; simpl; [discriminate|].
  apply insert_by_count_head. intros y l' Hy. by eapply IH.
Qed.

(** C7. When one label is strictly the most frequent of a non-empty
    training label vector, [zero_r] returns that label for every row of the
    test matrix, one prediction per row. *)
Theorem zero_r_predicts_majority (train_labels : list str)
    (test_features : matrix) (majority : str) :
  train_labels <> [] ->
  (forall label, label <> majority ->
     occurrences label train_labels < occurrences majority train_labels) ->
  exists predictions,
    zero_r train_labels test_features = Ok predictions /\
    length predictions = length test_features /\
    Forall (fun p => p = majority) predictions.
Proof.
  intros Hne Hmaj.
  assert (Hin : majority ∈ train_labels).
  { destruct train_labels as [|l ls]; [done|].
    destruct (decide (l = majority)) as [->|Hl]; [by left|].
    apply occurrences_pos. specialize (Hmaj l Hl).
    assert (0 < occurrences l (l :: ls)) by (apply occurrences_pos; by left).
    lia. }
  unfold zero_r. set (label_counts := foldl counter_incr [] train_labels).
  assert (Hentry : (majority, occurrences majority train_labels) ∈ label_counts).
  { by apply counter_loop_entries. }
  destruct (most_common label_counts) as [|[label n] rest] eqn:Hmost.
  { exfalso. rewrite <- (most_common_Permutation label_counts), Hmost in Hentry.
    by apply elem_of_nil in Hentry. }
  simpl. eexists. split; [reflexivity|]. unfold todense.
  split; [apply length_replicate|].
  assert (Hhead : (label, n) ∈ label_counts).
  { rewrite <- (most_common_Permutation label_counts), Hmost. by left. }
  apply counter_loop_entries in Hhead as [_ ->].
  pose proof (most_common_head _ _ _ Hmost) as Hmax.
  rewrite Forall_forall in Hmax. specialize (Hmax _ Hentry). simpl in Hmax.
  destruct (decide (label = majority)) as [->|Hlabel].
  - apply Forall_forall. intros p Hp. by apply elem_of_replicate in Hp as [-> _].
  - specialize (Hmaj label Hlabel). lia.
Qed.

Lemma zero_r_predicts_majority_witness :
  exists predictions,
    zero_r sample_train_labels sample_test_features = Ok predictions /\
    length predictions = length sample_test_features /\
    Forall (fun p => p = s2l "A") predictions.
Proof.
  apply (zero_r_predicts_majority sample_train_labels sample_test_features
           (s2l "A")).
  - discriminate.
  - intros label Hlabel. unfold sample_train_labels.
    rewrite !occurrences_app, !occurrences_replicate.
    repeat case_decide; first [lia | congruence].
Defined.

(** ** The feature selector *)

Section FeatureSelectorFacts.
Context {score : Type}.
Variable score_ltb : score -> score -> bool.
Variable chi2 : matrix -> list str -> nat -> score.

Lemma insert_by_score_Permutation (x : nat * score) (l : list (nat * score)) :
  insert_by_score score_ltb x l ≡ₚ x :: l.
Proof.
  induction l as [|y l IH]; simpl; [done|].
  destruct (score_ltb x.2 y.2); [|done]. rewrite IH. apply Permutation_swap.
Qed.

Lemma rank_columns_Permutation (scores : list (nat * score)) :
  rank_columns score_ltb scores ≡ₚ scores.
Proof.
  unfold rank_columns. induction scores as [|x scores IH]; simpl; [done|].
  by rewrite insert_by_score_Permutation, IH.
Qed.

(** A fitted selector holds [k] distinct columns of the training matrix. *)
Lemma fit_selected (X : matrix) (y : list str) (k : nat)
    (sel : SelectedFeatureSet (score := score)) :
  fit score_ltb chi2 X y k = Ok sel ->
  n_features sel = n_columns X /\
  length (selected sel) = k /\
  NoDup (map fst (selected sel)) /\
  Forall (fun c => (c < n_columns X)%nat) (map fst (selected sel)).
Proof.
  unfold fit. destruct ((k =? 0)%nat || (n_columns X <? k)%nat) eqn:Hk;
    [discriminate|].
  apply orb_false_iff in Hk as [_ Hk]. apply Nat.ltb_ge in Hk.
  intros [= <-]. simpl.
  set (scores := map (fun j => (j, chi2 X y j)) (seq 0 (n_columns X))).
  assert (Hfst : map fst (rank_columns score_ltb scores) ≡ₚ seq 0 (n_columns X)).
  { rewrite rank_columns_Permutation. unfold scores. rewrite map_map. simpl.
    by rewrite map_id. }
  assert (Hlen : length (rank_columns score_ltb scores) = n_columns X).
  { rewrite <- (length_map fst), Hfst. apply length_seq. }
  split; [done|]. split; [rewrite length_take; lia|].
  change (map fst (take k (rank_columns score_ltb scores)))
    with (fst <$> take k (rank_columns score_ltb scores)).
  rewrite fmap_take. split.
  - eapply sublist_NoDup; [|apply sublist_take].
    change (NoDup (map fst (rank_columns score_ltb scores))).
    rewrite Hfst. apply NoDup_seq.
  - apply Forall_take.
    change (Forall (fun c => (c < n_columns X)%nat)
              (map fst (rank_columns score_ltb scores))).
    rewrite Hfst. apply Forall_forall. intros c Hc. apply elem_of_seq in Hc. lia.
Qed.

Lemma transform_rows (X X' : matrix) (sel : SelectedFeatureSet (score := score)) :
  transform X sel = Ok X' ->
  X' = map (fun row => map (fun c => nth c row 0) (map fst (selected sel))) X /\
  length X' = length X /\
  Forall (fun row => length row = n_features sel) X /\
  Forall (fun row => length row = length (selected sel)) X'.
Proof.
  unfold transform.
  destruct (forallb (fun row => (length row =? n_features sel)%nat) X) eqn:Hshape;
    [|discriminate].
  intros [= <-]. split; [|split; [|split]].
  - apply map_ext. intros row. by rewrite map_map.
  - by rewrite length_map.
  - apply Forall_forall. intros row Hrow. apply list_elem_of_In in Hrow.
    rewrite forallb_forall in Hshape. by apply Nat.eqb_eq, Hshape.
  - apply Forall_forall. intros row Hrow. apply list_elem_of_fmap in Hrow
      as (row0 & -> & _). by rewrite length_map.
Qed.

Lemma transform_call_inv (s s' : SelectedFeatureSet (score := score))
    (X X' : matrix) :
  transform_call s X = Ok (X', s') -> s' = s /\ transform X s = Ok X'.
Proof.
  unfold transform_call.
  destruct (transform X s) as [X0|] eqn:HX; simpl; [|discriminate].
  by intros [= <- <-].
Qed.

(** C2. With a selector fitted for [k] columns, projecting the training,
    development and test matrices leaves the selector as it was, so that
    projecting a matrix again gives the identical matrix; the three
    projections keep their row counts, have [k] columns each, and column
    [c] of each of them is the column of its source matrix that the
    selected set names at position [c]. *)
Theorem transform_is_consistent (s s1 s2 s3 : SelectedFeatureSet (score := score))
    (X : matrix) (y : list str) (k : nat)
    (train dev test train' dev' test' : matrix) :
  fit score_ltb chi2 X y k = Ok s ->
  transform_call s train = Ok (train', s1) ->
  transform_call s1 dev = Ok (dev', s2) ->
  transform_call s2 test = Ok (test', s3) ->
  (s1 = s /\ s2 = s /\ s3 = s) /\
  (transform_call s3 train = Ok (train', s3) /\
   transform_call s3 dev = Ok (dev', s3) /\
   transform_call s3 test = Ok (test', s3)) /\
  exists columns : list nat,
    length columns = k /\ NoDup columns /\
    Forall (fun c => (c < n_columns X)%nat) columns /\
    train' = map (fun row => map (fun c => nth c row 0) columns) train /\
    dev' = map (fun row => map (fun c => nth c row 0) columns) dev /\
    test' = map (fun row => map (fun c => nth c row 0) columns) test /\
    (length train' = length train /\ length dev' = length dev /\
     length test' = length test) /\
    Forall (fun row => length row = k) (train' ++ dev' ++ test').
Proof.
  intros Hfit Htrain Hdev Htest.
  apply transform_call_inv in Htrain as Htrain'. destruct Htrain' as (-> & Htr1).
  apply transform_call_inv in Hdev as Hdev'. destruct Hdev' as (-> & Htr2).
  apply transform_call_inv in Htest as Htest'. destruct Htest' as (-> & Htr3).
  split; [done|]. split; [done|].
  apply fit_selected in Hfit as (_ & Hk & Hnd & Hlt).
  apply transform_rows in Htr1 as (Ht1 & Hl1 & _ & Hc1).
  apply transform_rows in Htr2 as (Ht2 & Hl2 & _ & Hc2).
  apply transform_rows in Htr3 as (Ht3 & Hl3 & _ & Hc3).
  rewrite Hk in Hc1, Hc2, Hc3.
  exists (map fst (selected s)). rewrite length_map.
  repeat (split; [done|]).
  rewrite !Forall_app. done.
Qed.

End FeatureSelectorFacts.

Lemma transform_is_consistent_witness :
  (sample_selector = sample_selector /\ sample_selector = sample_selector /\
   sample_selector = sample_selector) /\
  (transform_call sample_selector sample_train_matrix =
     Ok ([[2; 1]; [2; 0]], sample_selector) /\
   transform_call sample_selector [[0; 5; 0]] = Ok ([[0; 0]], sample_selector) /\
   transform_call sample_selector [[7; 8; 9]] = Ok ([[7; 9]], sample_selector)) /\
  exists columns : list nat,
    length columns = 2%nat /\ NoDup columns /\
    Forall (fun c => (c < n_columns sample_train_matrix)%nat) columns /\
    [[2; 1]; [2; 0]] =
      map (fun row => map (fun c => nth c row 0) columns) sample_train_matrix /\
    [[0; 0]] = map (fun row => map (fun c => nth c row 0) columns) [[0; 5; 0]] /\
    [[7; 9]] = map (fun row => map (fun c => nth c row 0) columns) [[7; 8; 9]] /\
    (length [[2; 1]; [2; 0]] = length sample_train_matrix /\
     length [[0; 0]] = length [[0; 5; 0]] /\
     length [[7; 9]] = length [[7; 8; 9]]) /\
    Forall (fun row => length row = 2%nat) ([[2; 1]; [2; 0]] ++ [[0; 0]] ++ [[7; 9]]).
Proof.
  apply (transform_is_consistent Z.ltb column_total sample_selector
           sample_selector sample_selector sample_selector
           sample_train_matrix [s2l "X"; s2l "Y"] 2
           sample_train_matrix [[0; 5; 0]] [[7; 8; 9]]);
    vm_compute; reflexivity.
Defined.

(** ** The notebook *)

Section NotebookFacts.
Context {sparse selector : Type}.
Variable csr_matrix : list (list pyval) -> result sparse.
Variable x2_fit : sparse -> list str -> nat -> result selector.
Variable x2_transform : selector -> sparse -> result (sparse * selector).

(** [transform] leaves the selector object as it is. *)
Hypothesis transform_keeps_selector :
  forall s X X' s', x2_transform s X = Ok (X', s') -> s' = s.

Lemma run_cells_selector (k : nat)
    (vocabulary train_file dev_file test_file : list str)
    (nb : notebook (sparse := sparse) (selector := selector)) :
  run_cells csr_matrix x2_fit x2_transform k vocabulary train_file dev_file test_file = Ok nb ->
  fit_on_training csr_matrix x2_fit k vocabulary train_file = Ok (x2 nb).
Proof.
  unfold run_cells, fit_on_training. intros Hrun.
  apply bind_Ok_inv in Hrun as (wd & -> & Hrun). simpl.
  apply bind_Ok_inv in Hrun as (train_results & -> & Hrun). simpl.
  apply bind_Ok_inv in Hrun as (full_train & -> & Hrun). simpl.
  apply bind_Ok_inv in Hrun as (dev_results & _ & Hrun).
  apply bind_Ok_inv in Hrun as (full_dev & _ & Hrun).
  apply bind_Ok_inv in Hrun as (s & -> & Hrun).
  apply bind_Ok_inv in Hrun as ([train' s1] & Ht1 & Hrun).
  apply bind_Ok_inv in Hrun as ([dev' s2] & Ht2 & Hrun).
  apply bind_Ok_inv in Hrun as (test_results & _ & Hrun).
  apply bind_Ok_inv in Hrun as (full_test & _ & Hrun).
  apply bind_Ok_inv in Hrun as ([test' s3] & Ht3 & [= <-]). simpl.
  apply transform_keeps_selector in Ht1 as ->.
  apply transform_keeps_selector in Ht2 as ->.
  apply transform_keeps_selector in Ht3 as ->. done.
Qed.

(** C3. The selector that the notebook ends up with is the one fitted on
    the training matrix and the training labels: two runs over the same
    vocabulary and training file hold the same selected feature set,
    whatever their development and test files are. *)
Theorem selection_ignores_dev_and_test (k : nat)
    (vocabulary train_file dev_file test_file dev_file' test_file' : list str)
    (nb nb' : notebook (sparse := sparse) (selector := selector)) :
  run_cells csr_matrix x2_fit x2_transform k vocabulary train_file dev_file test_file = Ok nb ->
  run_cells csr_matrix x2_fit x2_transform k vocabulary train_file dev_file' test_file' = Ok nb' ->
  x2 nb = x2 nb' /\
  fit_on_training csr_matrix x2_fit k vocabulary train_file = Ok (x2 nb).
Proof.
  intros Hrun Hrun'.
  apply run_cells_selector in Hrun. apply run_cells_selector in Hrun'.
  split; [congruence|done].
Qed.

End NotebookFacts.

Lemma selection_ignores_dev_and_test_witness :
  exists nb nb',
    run_cells csr_of_rows (fit Z.ltb column_total) transform_call 2 plain_vocabulary_file
      sample_train_file sample_dev_file sample_test_file = Ok nb /\
    run_cells csr_of_rows (fit Z.ltb column_total) transform_call 2 plain_vocabulary_file
      sample_train_file other_dev_file other_test_file = Ok nb' /\
    x2 nb = x2 nb' /\
    fit_on_training csr_of_rows (fit Z.ltb column_total) 2 plain_vocabulary_file
      sample_train_file = Ok (x2 nb).
Proof.
  eexists _, _. split; [vm_compute; reflexivity|].
  split; [vm_compute; reflexivity|].
  apply (selection_ignores_dev_and_test csr_of_rows (fit Z.ltb column_total)
           transform_call
           (fun s X X' s' H => proj1 (transform_call_inv s s' X X' H)) 2
           plain_vocabulary_file sample_train_file
           sample_dev_file sample_test_file other_dev_file other_test_file);
    vm_compute; reflexivity.
Defined.

(** * Further properties *)

(** ** Characters and fields *)

Lemma number_char_cases (c : ascii) :
  number_char c ->
  is_space c = false /\ c <> "-"%char /\ c <> "+"%char /\ c <> tab /\
  c <> newline /\ c <> dquote /\ c <> comma.
Proof.
  intros Hc.
  assert (Hn : (48 <= nat_of_ascii c <= 57)%nat \/ c = "_"%char).
  { destruct Hc as [[d Hd]|Hc]; [left|by right].
    unfold digit_of in Hd.
    destruct (48 <=? Z.of_nat (nat_of_ascii c)) eqn:H1; [|discriminate].
    destruct (Z.of_nat (nat_of_ascii c) <=? 57) eqn:H2; [|discriminate].
    apply Z.leb_le in H1, H2. lia. }
  destruct Hn as [Hn| ->].
  - split.
    { unfold is_space. apply orb_false_iff. split.
      - apply andb_false_iff. right. apply Nat.leb_gt. lia.
      - apply Nat.eqb_neq. lia. }
    repeat split; intros ->; vm_compute in Hn; lia.
  - repeat split; discriminate.
Qed.

Lemma split_on_no_sep (sep : ascii) (s : str) :
  sep ∉ s -> split_on sep s = [s].
Proof.
  induction s as [|c s IH]; simpl; intros Hs; [done|].
  apply not_elem_of_cons in Hs as [Hc Hs].
  rewrite decide_False by congruence. by rewrite IH.
Qed.

Lemma split_on_app (sep : ascii) (a b : str) :
  sep ∉ a -> split_on sep (a ++ sep :: b) = a :: split_on sep b.
Proof.
  induction a as [|c a IH]; simpl; intros Ha.
  - by rewrite decide_True.
  - apply not_elem_of_cons in Ha as [Hc Ha].
    rewrite decide_False by congruence. by rewrite IH.
Qed.

Lemma lstrip_id (s : str) :
  (forall c s', s = c :: s' -> is_space c = false) -> lstrip s = s.
Proof.
  destruct s as [|c s]; simpl; [done|]. intros H.
  by rewrite (H c s eq_refl).
Qed.

Lemma decimal_literal_digits (s : str) (z : Z) :
  decimal_literal s = Some z -> digits_value 0 false s = Some z /\ s <> [].
Proof.
  unfold decimal_literal.
  destruct (digits_value 0 false s) as [z'|]; [|discriminate].
  destruct s as [|c s]; [discriminate|].
  destruct (decide (c = "0"%char)); [destruct (decide (z' = 0))|];
    intros [= <-]; try done.
Qed.

(** [int] reads a numeral that is followed by the end of the line. *)
Lemma py_int_numeral (s : str) :
  numeral s -> py_int (s ++ [newline]) = Ok (numeral_value s).
Proof.
  intros [Hchars [z Hz]]. unfold numeral_value. rewrite Hz. simpl.
  apply decimal_literal_digits in Hz as [Hz Hne].
  assert (Hfirst : forall c s', s = c :: s' -> number_char c).
  { intros c s' ->. by apply Forall_cons in Hchars as [? _]. }
  assert (Hlast : forall c s', rev s = c :: s' -> number_char c).
  { intros c s' Hrev. rewrite Forall_forall in Hchars. apply Hchars.
    apply list_elem_of_In, in_rev. rewrite Hrev. by left. }
  unfold py_int, strip.
  rewrite (lstrip_id (s ++ [newline])).
  2:{ intros c s' Hs. destruct s as [|c0 s0]; [done|]. injection Hs as <- _.
      by apply number_char_cases, (Hfirst c0 s0). }
  rewrite rev_app_distr. simpl.
  rewrite (lstrip_id (rev s)).
  2:{ intros c s' Hs. by apply number_char_cases, (Hlast c s'). }
  rewrite rev_involutive.
  destruct s as [|c t]; [done|].
  destruct (number_char_cases c (Hfirst c t eq_refl)) as (_ & Hm & Hp & _).
  rewrite !decide_False by done.
  change (match digits_value 0 false (c :: t) with
          | Some z0 => Ok z0
          | None => Raise ValueError
          end = Ok z).
  by rewrite Hz.
Qed.

(** ** The vocabulary, continued *)

Lemma vocab_entry_no_tab (line : str) :
  tab ∉ line -> vocab_entry line = Raise IndexError.
Proof.
  intros Hline. unfold vocab_entry. by rewrite split_on_no_sep.
Qed.

Lemma vocab_entry_fields (term field : str) :
  tab ∉ term -> tab ∉ field ->
  vocab_entry (term ++ tab :: field) =
    py_int field ≫= fun id => Ok (term, id).
Proof.
  intros Hterm Hfield. unfold vocab_entry.
  rewrite split_on_app, split_on_no_sep by done. simpl.
  by destruct (py_int field).
Qed.

Lemma build_word_dict_entries (vocabulary : list str) :
  build_word_dict vocabulary =
    map_result vocab_entry vocabulary ≫= fun es =>
      Ok (foldl (fun d e => dict_set d e.1 e.2) [] es).
Proof. apply word_dict_loop. Qed.

(** X1. The loader stops at the first line that gives no entry, with the
    exception of that line: an [IndexError] for a line without a tab, a
    [ValueError] for a line whose second field is no integer; the lines
    after it are not looked at. *)
Theorem vocabulary_first_bad_line (before after : list str) (line : str) :
  Forall (fun l => is_ok (vocab_entry l)) before ->
  (tab ∉ line ->
   build_word_dict (before ++ line :: after) = Raise IndexError) /\
  (forall term field,
     line = term ++ tab :: field -> tab ∉ term -> tab ∉ field ->
     py_int field = Raise ValueError ->
     build_word_dict (before ++ line :: after) = Raise ValueError) /\
  (forall e, vocab_entry line = Raise e ->
     build_word_dict (before ++ line :: after) = Raise e).
Proof.
  intros Hbefore.
  assert (Hgen : forall e, vocab_entry line = Raise e ->
                 build_word_dict (before ++ line :: after) = Raise e).
  { intros e He. rewrite build_word_dict_entries.
    by rewrite (map_result_first_Raise _ _ _ _ _ Hbefore He). }
  split; [|split; [|done]].
  - intros Hline. by apply Hgen, vocab_entry_no_tab.
  - intros term field -> Hterm Hfield Hint. apply Hgen.
    rewrite vocab_entry_fields by done. by rewrite Hint.
Qed.

Lemma vocabulary_first_bad_line_witness :
  build_word_dict ([s2l "a" ++ tab :: s2l "0"] ++ s2l "b 1" :: [s2l "junk"]) =
    Raise IndexError /\
  build_word_dict
    ([s2l "a" ++ tab :: s2l "0"] ++ (s2l "b" ++ tab :: s2l "one") :: [s2l "junk"]) =
    Raise ValueError.
Proof.
  split.
  - apply (proj1 (vocabulary_first_bad_line [s2l "a" ++ tab :: s2l "0"]
                    [s2l "junk"] (s2l "b 1")
                    ltac:(repeat constructor; eexists; vm_compute; reflexivity))).
    apply (bool_decide_unpack _). vm_compute. exact I.
  - apply (proj1 (proj2 (vocabulary_first_bad_line [s2l "a" ++ tab :: s2l "0"]
                    [s2l "junk"] (s2l "b" ++ tab :: s2l "one")
                    ltac:(repeat constructor; eexists; vm_compute; reflexivity)))
             (s2l "b") (s2l "one")).
    + reflexivity.
    + apply (bool_decide_unpack _). vm_compute. exact I.
    + apply (bool_decide_unpack _). vm_compute. exact I.
    + vm_compute. reflexivity.
Defined.

Lemma filter_ne_notin (x : str) (l : list str) :
  x ∉ l -> filter (fun y => y <> x) l = l.
Proof.
  induction l as [|y l IH]; intros Hx; [done|].
  apply not_elem_of_cons in Hx as [Hne Hx].
  rewrite filter_cons, decide_True by congruence. by rewrite IH.
Qed.

Lemma first_occurrences_elem (x : str) (l : list str) :
  x ∈ first_occurrences l <-> x ∈ l.
Proof.
  induction l as [|y l IH]; simpl; [done|].
  rewrite !elem_of_cons, list_elem_of_filter, IH.
  destruct (decide (x = y)); tauto.
Qed.

Lemma first_occurrences_NoDup (l : list str) : NoDup (first_occurrences l).
Proof.
  induction l as [|y l IH]; simpl; [apply NoDup_nil_2|].
  apply NoDup_cons. split.
  - rewrite list_elem_of_filter. intros [Hy _]. by apply Hy.
  - by apply NoDup_filter.
Qed.

Lemma first_occurrences_id (l : list str) :
  NoDup l -> first_occurrences l = l.
Proof.
  induction 1 as [|x l Hx _ IH]; simpl; [done|].
  rewrite IH. by rewrite filter_ne_notin.
Qed.

(** The keys after a run of assignments: the old keys, then the new ones
    in the order of their first assignment. *)
Lemma dict_keys_fold_set {A V} (key : A -> str) (val : dict str V -> A -> V)
    (xs : list A) (d : dict str V) :
  dict_keys (foldl (fun d x => dict_set d (key x) (val d x)) d xs) =
    dict_keys d ++
    filter (fun k => k ∉ dict_keys d) (first_occurrences (map key xs)).
Proof.
  revert d. induction xs as [|x xs IH]; intros d; simpl.
  - by rewrite app_nil_r.
  - rewrite IH, dict_keys_set. unfold dict_contains. rewrite filter_cons. simpl.
    destruct (dict_get d (key x)) eqn:Hk.
    + assert (Hin : key x ∈ dict_keys d).
      { destruct (decide (key x ∈ dict_keys d)) as [|Hn]; [done|].
        apply dict_get_None in Hn. congruence. }
      rewrite decide_False by tauto. f_equal.
      rewrite list_filter_filter. apply list_filter_iff.
      intros k. split; [|tauto]. intros Hx. split; [done|].
      intros ->. done.
    + apply dict_get_None in Hk. rewrite decide_True by done.
      rewrite <- app_assoc. simpl. do 2 f_equal.
      rewrite list_filter_filter. apply list_filter_iff.
      intros k. rewrite not_elem_of_app, list_elem_of_singleton. tauto.
Qed.

Lemma dict_keys_fold_first {V} (es : list (str * V)) (d : dict str V) :
  dict_keys (foldl (fun d e => dict_set d e.1 e.2) d es) =
    dict_keys d ++
    filter (fun x => x ∉ dict_keys d) (first_occurrences (map fst es)).
Proof. apply (dict_keys_fold_set fst (fun _ e => e.2)). Qed.

Lemma filter_all_true {A} (P : A -> Prop) `{forall x, Decision (P x)}
    (l : list A) :
  (forall x, P x) -> filter P l = l.
Proof.
  intros HP. induction l as [|x l IH]; [done|].
  rewrite filter_cons, decide_True by done. by rewrite IH.
Qed.

(** X2. The loaded vocabulary has one entry per distinct term, in the
    order in which the terms first appear in the source: a term that is
    repeated keeps the column of its first line. *)
Theorem vocabulary_key_order (vocabulary : list str) (word_dict : dict str Z) :
  build_word_dict vocabulary = Ok word_dict ->
  exists es,
    map_result vocab_entry vocabulary = Ok es /\
    dict_keys word_dict = first_occurrences (map fst es) /\
    NoDup (dict_keys word_dict) /\
    length (dict_values word_dict) = length (first_occurrences (map fst es)).
Proof.
  rewrite build_word_dict_entries. intros Hrun.
  apply bind_Ok_inv in Hrun as (es & Hes & [= <-]).
  exists es. split; [done|].
  assert (Hkeys : dict_keys (foldl (fun d e => dict_set d e.1 e.2) [] es) =
                  first_occurrences (map fst es)).
  { rewrite dict_keys_fold_first. simpl.
    apply filter_all_true. intros x. apply not_elem_of_nil. }
  split; [done|]. split.
  - rewrite Hkeys. apply first_occurrences_NoDup.
  - rewrite <- Hkeys. unfold dict_keys, dict_values. by rewrite !length_map.
Qed.

Lemma vocabulary_key_order_witness :
  exists es,
    map_result vocab_entry sample_vocabulary_file = Ok es /\
    dict_keys [(s2l "a", 7); (s2l "b", 1); (s2l "c", 2)] =
      first_occurrences (map fst es) /\
    NoDup (dict_keys [(s2l "a", 7); (s2l "b", 1); (s2l "c", 2)]) /\
    length (dict_values [(s2l "a", 7); (s2l "b", 1); (s2l "c", 2)]) =
      length (first_occurrences (map fst es)).
Proof.
  apply (vocabulary_key_order sample_vocabulary_file). vm_compute. reflexivity.
Defined.

Lemma dict_set_fresh {K V} `{EqDecision K} (d : dict K V) (k : K) (v : V) :
  k ∉ dict_keys d -> dict_set d k v = d ++ [(k, v)].
Proof.
  unfold dict_keys. induction d as [|[k' v'] d IH]; simpl; intros Hk; [done|].
  apply not_elem_of_cons in Hk as [Hne Hk].
  rewrite decide_False by congruence. by rewrite IH.
Qed.

Lemma dict_fold_fresh {K V} `{EqDecision K} (es d : dict K V) :
  NoDup (dict_keys (d ++ es)) ->
  foldl (fun d e => dict_set d e.1 e.2) d es = d ++ es.
Proof.
  revert d. induction es as [|[k v] es IH]; intros d Hnd; simpl.
  - by rewrite app_nil_r.
  - assert (Hk : k ∉ dict_keys d).
    { unfold dict_keys in *. rewrite map_app in Hnd. simpl in Hnd.
      apply NoDup_app in Hnd as (_ & Hd & _). intros Hin.
      apply (Hd k Hin). by left. }
    rewrite dict_set_fresh by done. rewrite IH.
    + by rewrite <- app_assoc.
    + by rewrite <- app_assoc.
Qed.

(** X3. When no term is repeated, the vocabulary is the list of the
    (term, id) entries of the source in the order of the lines: column [j]
    of every matrix is the term of line [j]. *)
Theorem vocabulary_without_repeats (vocabulary : list str) (es : list (str * Z)) :
  map_result vocab_entry vocabulary = Ok es ->
  NoDup (map fst es) ->
  build_word_dict vocabulary = Ok es /\
  (forall j line, vocabulary !! j = Some line ->
     exists term id, vocab_entry line = Ok (term, id) /\
                     es !! j = Some (term, id) /\
                     dict_values es !! j = Some id).
Proof.
  intros Hes Hnd. split.
  - rewrite build_word_dict_entries, Hes. simpl. f_equal.
    by apply (dict_fold_fresh es []).
  - intros j line Hj. apply map_result_Ok_Forall in Hes.
    destruct (Forall2_lookup_l _ _ _ _ _ Hes Hj) as ([term id] & Hej & Hline).
    exists term, id. split; [done|]. split; [done|].
    unfold dict_values. change (map snd es) with (snd <$> es).
    by rewrite list_lookup_fmap, Hej.
Qed.

Lemma vocabulary_without_repeats_witness :
  build_word_dict plain_vocabulary_file =
    Ok [(s2l "a", 0); (s2l "b", 1); (s2l "c", 2)] /\
  (forall j line, plain_vocabulary_file !! j = Some line ->
     exists term id, vocab_entry line = Ok (term, id) /\
                     [(s2l "a", 0); (s2l "b", 1); (s2l "c", 2)] !! j =
                       Some (term, id) /\
                     dict_values [(s2l "a", 0); (s2l "b", 1); (s2l "c", 2)] !! j =
                       Some id).
Proof.
  apply (vocabulary_without_repeats plain_vocabulary_file).
  - vm_compute. reflexivity.
  - apply (bool_decide_unpack _). vm_compute. exact I.
Defined.

Lemma vocab_entry_line (e : str * str) :
  tab ∉ e.1 -> numeral e.2 ->
  vocab_entry (vocabulary_line e) = Ok (e.1, numeral_value e.2).
Proof.
  intros Hterm Hnum. unfold vocabulary_line.
  rewrite vocab_entry_fields, py_int_numeral; [done..|].
  rewrite not_elem_of_app. split.
  - destruct Hnum as [Hchars _]. rewrite Forall_forall in Hchars.
    intros Hin. by destruct (number_char_cases _ (Hchars _ Hin)) as (_&_&_&?&_).
  - rewrite list_elem_of_singleton. discriminate.
Qed.

(** X4. Every vocabulary file made of lines [term<TAB>numeral<newline>],
    with terms that hold no tab, loads: the loader returns, and assigns the
    ids in the order of the lines. *)
Theorem wellformed_vocabulary_loads (entries : list (str * str)) :
  Forall (fun e => (tab ∉ e.1) /\ numeral e.2) entries ->
  build_word_dict (map vocabulary_line entries) =
    Ok (foldl (fun d e => dict_set d e.1 e.2) []
          (map (fun e => (e.1, numeral_value e.2)) entries)).
Proof.
  intros Hentries. rewrite build_word_dict_entries.
  assert (Hes : map_result vocab_entry (map vocabulary_line entries) =
                Ok (map (fun e => (e.1, numeral_value e.2)) entries)).
  { induction Hentries as [|e entries [Hterm Hnum] _ IH]; simpl; [done|].
    by rewrite vocab_entry_line, IH. }
  by rewrite Hes.
Qed.

Lemma wellformed_vocabulary_loads_witness :
  build_word_dict (map vocabulary_line [(s2l "the", s2l "12"); (s2l "a b", s2l "0")]) =
    Ok (foldl (fun d e => dict_set d e.1 e.2) []
          (map (fun e => (e.1, numeral_value e.2))
             [(s2l "the", s2l "12"); (s2l "a b", s2l "0")])).
Proof.
  apply (wellformed_vocabulary_loads [(s2l "the", s2l "12"); (s2l "a b", s2l "0")]).
  repeat constructor; simpl;
    try (apply (bool_decide_unpack _); vm_compute; exact I);
    try (repeat constructor; first [left; eexists; vm_compute; reflexivity
                                   | right; reflexivity]);
    try (eexists; vm_compute; reflexivity).
Defined.

(** ** [clean_count_and_labels], continued *)

Lemma map_result_app {A B} (f : A -> result B) (l1 l2 : list A) :
  map_result f (l1 ++ l2) =
    map_result f l1 ≫= fun ys1 =>
    map_result f l2 ≫= fun ys2 => Ok (ys1 ++ ys2).
Proof.
  induction l1 as [|x l1 IH]; simpl.
  - by destruct (map_result f l2).
  - destruct (f x) as [y|]; simpl; [|done]. rewrite IH.
    destruct (map_result f l1) as [ys1|]; simpl; [|done].
    by destruct (map_result f l2).
Qed.

(** X5. The rows and labels of a dataset are those of its parts, side by
    side: no line influences the row or the label of another line, and the
    build of the whole fails exactly when the build of a part does. *)
Theorem clean_count_and_labels_app (raw1 raw2 : list str)
    (dictionary : dict str Z) :
  clean_count_and_labels (raw1 ++ raw2) dictionary =
    clean_count_and_labels raw1 dictionary ≫= fun r1 =>
    clean_count_and_labels raw2 dictionary ≫= fun r2 =>
    Ok (r1.1 ++ r2.1, r1.2 ++ r2.2).
Proof.
  rewrite !clean_count_and_labels_decode. unfold decode_all.
  rewrite map_result_app.
  destruct (map_result (decode_line dictionary) raw1) as [rs1|]; simpl; [|done].
  destruct (map_result (decode_line dictionary) raw2) as [rs2|]; simpl; [|done].
  by rewrite !map_app.
Qed.

Lemma clean_row_lookup (raw : list str) (dictionary : dict str Z)
    (count : list (list pyval)) (labels : list str)
    (i : nat) (line : str) (row : list pyval) :
  clean_count_and_labels raw dictionary = Ok (count, labels) ->
  raw !! i = Some line -> count !! i = Some row ->
  exists label, decode_line dictionary line = Ok (row, label).
Proof.
  intros Hrun Hline Hrow.
  apply clean_count_and_labels_rows in Hrun as (Hrows & Hlen1 & Hlen2).
  destruct (lookup_lt_is_Some_2 labels i) as [label Hlabel].
  { rewrite Hlen2. by eapply lookup_lt_Some. }
  exists label.
  assert (Hi : zip count labels !! i = Some (row, label)).
  { apply lookup_zip_with_Some. eauto. }
  apply (Forall2_lookup_lr _ _ _ _ _ _ Hrows Hline Hi).
Qed.

Lemma decode_line_row (dictionary : dict str Z) (line : str)
    (row : list pyval) (label : str) :
  decode_line dictionary line = Ok (row, label) ->
  exists count_dict, row = row_of count_dict dictionary.
Proof.
  unfold decode_line. intros Hd.
  apply bind_Ok_inv in Hd as (payload & _ & Hd).
  apply bind_Ok_inv in Hd as (count_list & _ & Hd).
  apply bind_Ok_inv in Hd as (count_dict & _ & [= <- _]). by eexists.
Qed.

(** X6. A build that returns gives a rectangular matrix: every row has one
    entry per vocabulary entry, whatever the count lists hold, and there
    are as many rows as labels. *)
Theorem rows_are_rectangular (raw : list str) (dictionary : dict str Z)
    (count : list (list pyval)) (labels : list str) :
  clean_count_and_labels raw dictionary = Ok (count, labels) ->
  Forall (fun row => length row = length dictionary) count /\
  length count = length labels.
Proof.
  intros Hrun. split.
  - apply Forall_lookup. intros i row Hrow.
    destruct (lookup_lt_is_Some_2 raw i) as [line Hline].
    { apply clean_count_and_labels_rows in Hrun as (_ & <- & _).
      by eapply lookup_lt_Some. }
    destruct (clean_row_lookup _ _ _ _ _ _ _ Hrun Hline Hrow) as [label Hd].
    by apply decode_line_length in Hd as [? _].
  - apply clean_count_and_labels_rows in Hrun as (_ & -> & ->). done.
Qed.

Lemma rows_are_rectangular_witness :
  Forall (fun row => length row = length sample_vocabulary)
    [[PInt 2; PInt 0; PInt 1]; [PInt 0; PInt 5; PInt 0]] /\
  length [[PInt 2; PInt 0; PInt 1]; [PInt 0; PInt 5; PInt 0]] =
    length [s2l "X"; s2l "Z"].
Proof.
  apply (rows_are_rectangular [line_plain; line_unknown_id] sample_vocabulary).
  vm_compute. reflexivity.
Defined.

(** X7. A vocabulary id that stands in no pair of a record gives the entry
    0 in the column of that id. *)
Theorem absent_id_counts_zero (raw : list str) (dictionary : dict str Z)
    (count : list (list pyval)) (labels : list str)
    (i j : nat) (line : str) (row : list pyval) (l : list (Z * Z)) (t : Z) :
  clean_count_and_labels raw dictionary = Ok (count, labels) ->
  raw !! i = Some line ->
  count !! i = Some row ->
  pairs_of_line line = Some l ->
  dict_values dictionary !! j = Some t ->
  t ∉ map fst l ->
  row !! j = Some (PInt 0).
Proof.
  intros Hrun Hline Hrow Hl Hj Ht.
  destruct (clean_row_lookup _ _ _ _ _ _ _ Hrun Hline Hrow) as [label Hd].
  rewrite (decode_line_pairs _ _ _ Hl) in Hd. injection Hd as <- _.
  rewrite row_of_pairs. unfold int_row. rewrite !list_lookup_fmap, Hj. simpl.
  apply last_count_None in Ht. by rewrite Ht.
Qed.

Lemma absent_id_counts_zero_witness :
  [PInt 2; PInt 0; PInt 1] !! 1%nat = Some (PInt 0).
Proof.
  apply (absent_id_counts_zero [line_plain] sample_vocabulary
           [[PInt 2; PInt 0; PInt 1]] [s2l "X"] 0 1 line_plain
           [PInt 2; PInt 0; PInt 1] [(0, 2); (2, 1)] 1);
    first [ vm_compute; reflexivity
          | apply (bool_decide_unpack _); vm_compute; exact I ].
Defined.

(** X8. Two terms of the vocabulary that share an id get the same entry in
    every row: the count of the shared id fills both columns. *)
Theorem shared_id_columns_agree (raw : list str) (dictionary : dict str Z)
    (count : list (list pyval)) (labels : list str)
    (j1 j2 : nat) (t : Z) :
  clean_count_and_labels raw dictionary = Ok (count, labels) ->
  dict_values dictionary !! j1 = Some t ->
  dict_values dictionary !! j2 = Some t ->
  Forall (fun row => row !! j1 = row !! j2) count.
Proof.
  intros Hrun Hj1 Hj2. apply Forall_lookup. intros i row Hrow.
  destruct (lookup_lt_is_Some_2 raw i) as [line Hline].
  { apply clean_count_and_labels_rows in Hrun as (_ & <- & _).
    by eapply lookup_lt_Some. }
  destruct (clean_row_lookup _ _ _ _ _ _ _ Hrun Hline Hrow) as [label Hd].
  apply decode_line_row in Hd as [count_dict ->].
  unfold row_of. by rewrite !list_lookup_fmap, Hj1, Hj2.
Qed.

Lemma shared_id_columns_agree_witness :
  Forall (fun row => row !! 0%nat = row !! 1%nat) [[PInt 2; PInt 2]].
Proof.
  apply (shared_id_columns_agree [line_plain] [(s2l "a", 0); (s2l "b", 0)]
           [[PInt 2; PInt 2]] [s2l "X"] 0 1 0);
    vm_compute; reflexivity.
Defined.

(** X9. A record whose counts are not negative gives a row of integers
    that are not negative. *)
Theorem nonnegative_counts_give_nonnegative_rows (raw : list str)
    (dictionary : dict str Z) (count : list (list pyval)) (labels : list str)
    (i : nat) (line : str) (row : list pyval) (l : list (Z * Z)) :
  clean_count_and_labels raw dictionary = Ok (count, labels) ->
  raw !! i = Some line ->
  count !! i = Some row ->
  pairs_of_line line = Some l ->
  Forall (fun p => 0 <= p.2) l ->
  exists zs, row = int_row zs /\ Forall (fun z => 0 <= z) zs.
Proof.
  intros Hrun Hline Hrow Hl Hpos.
  destruct (clean_row_lookup _ _ _ _ _ _ _ Hrun Hline Hrow) as [label Hd].
  rewrite (decode_line_pairs _ _ _ Hl) in Hd. injection Hd as <- _.
  rewrite row_of_pairs. eexists. split; [reflexivity|].
  apply Forall_forall. intros z Hz. apply list_elem_of_fmap in Hz as (t & -> & _).
  clear -Hpos. induction Hpos as [|[a b] l Hb _ IH]; simpl; [done|].
  destruct (last_count t l); [done|]. destruct (decide (a = t)); simpl; [done|lia].
Qed.

Lemma nonnegative_counts_give_nonnegative_rows_witness :
  exists zs, [PInt 2; PInt 0; PInt 1] = int_row zs /\ Forall (fun z => 0 <= z) zs.
Proof.
  apply (nonnegative_counts_give_nonnegative_rows [line_plain] sample_vocabulary
           [[PInt 2; PInt 0; PInt 1]] [s2l "X"] 0 line_plain
           [PInt 2; PInt 0; PInt 1] [(0, 2); (2, 1)]);
    first [ vm_compute; reflexivity
          | apply (bool_decide_unpack _); vm_compute; exact I ].
Defined.

Lemma last_count_Some_NoDup (j c : Z) (l : list (Z * Z)) :
  NoDup (map fst l) -> last_count j l = Some c <-> (j, c) ∈ l.
Proof.
  revert c. induction l as [|[a b] l IH]; simpl; intros c Hnd.
  - split; [discriminate|]. intros H. by apply elem_of_nil in H.
  - apply NoDup_cons in Hnd as [Ha Hnd]. rewrite elem_of_cons.
    assert (Hfresh : forall c0, (a, c0) ∉ l).
    { intros c0 Hin. apply Ha. apply list_elem_of_fmap. by exists (a, c0). }
    destruct (last_count j l) as [c'|] eqn:Hl.
    + assert (Hin : (j, c') ∈ l) by by apply IH.
      split.
      * intros [= <-]. by right.
      * intros [[= -> ->]|Hc]; [by apply Hfresh in Hin|].
        apply IH in Hc; [congruence|done].
    + assert (Hnone : forall c0, (j, c0) ∉ l).
      { intros c0 Hin. apply IH in Hin; [discriminate|done]. }
      destruct (decide (a = j)) as [->|Hne].
      * split; [intros [= ->]; by left|].
        intros [[= ->]|Hin]; [done|]. by apply Hnone in Hin.
      * split; [discriminate|]. intros [[= ? ?]|Hin]; [congruence|].
        by apply Hnone in Hin.
Qed.

Lemma last_count_Permutation (j : Z) (l l' : list (Z * Z)) :
  l ≡ₚ l' -> NoDup (map fst l) -> last_count j l = last_count j l'.
Proof.
  intros Hperm Hnd.
  assert (Hnd' : NoDup (map fst l')).
  { change (NoDup (fst <$> l')). rewrite <- Hperm. exact Hnd. }
  destruct (last_count j l) as [c|] eqn:Hl.
  - symmetry. apply last_count_Some_NoDup; [done|]. rewrite <- Hperm.
    by apply last_count_Some_NoDup.
  - destruct (last_count j l') as [c|] eqn:Hl'; [|done].
    apply last_count_Some_NoDup in Hl'; [|done]. rewrite <- Hperm in Hl'.
    apply last_count_Some_NoDup in Hl'; [congruence|done].
Qed.

(** X10. When the term-ids of a record are pairwise distinct, the order of
    its pairs does not matter: two records with the same pairs in another
    order decode to the same row. *)
Theorem pair_order_is_irrelevant (dictionary : dict str Z) (line line' : str)
    (l l' : list (Z * Z)) :
  pairs_of_line line = Some l ->
  pairs_of_line line' = Some l' ->
  l ≡ₚ l' ->
  NoDup (map fst l) ->
  exists row,
    clean_count_and_labels [line] dictionary = Ok ([row], [before_comma line]) /\
    clean_count_and_labels [line'] dictionary = Ok ([row], [before_comma line']).
Proof.
  intros Hl Hl' Hperm Hnd. eexists. split.
  - rewrite clean_count_and_labels_decode. unfold decode_all. simpl.
    by rewrite (decode_line_pairs _ _ _ Hl).
  - rewrite clean_count_and_labels_decode. unfold decode_all. simpl.
    rewrite (decode_line_pairs _ _ _ Hl'). simpl. do 3 f_equal.
    rewrite !row_of_pairs. f_equal. apply map_ext. intros j. f_equal.
    symmetry. by apply last_count_Permutation.
Qed.

Lemma pair_order_is_irrelevant_witness :
  exists row,
    clean_count_and_labels [line_plain] sample_vocabulary =
      Ok ([row], [before_comma line_plain]) /\
    clean_count_and_labels
      [s2l "X,t1," ++ quoted "[(2, 1), (0, 2)]" ++ [newline]] sample_vocabulary =
      Ok ([row], [before_comma (s2l "X,t1," ++ quoted "[(2, 1), (0, 2)]" ++ [newline])]).
Proof.
  apply (pair_order_is_irrelevant sample_vocabulary line_plain
           (s2l "X,t1," ++ quoted "[(2, 1), (0, 2)]" ++ [newline])
           [(0, 2); (2, 1)] [(2, 1); (0, 2)]).
  - vm_compute. reflexivity.
  - vm_compute. reflexivity.
  - apply Permutation_swap.
  - apply (bool_decide_unpack _). vm_compute. exact I.
Defined.

Lemma comprehension_first_bad (good rest : list pyval) (bad : pyval)
    (e : exn) (d : dict pyval pyval) :
  is_Some (mapM as_pair good) ->
  (forall d', comprehension_body d' bad = Raise e) ->
  for_each comprehension_body d (good ++ bad :: rest) = Raise e.
Proof.
  intros [l Hl] Hbad. rewrite for_each_app.
  rewrite (comprehension_pairs _ _ _ Hl). simpl. by rewrite Hbad.
Qed.

(** X11. A count list that parses but is no list of pairs aborts the build:
    a [TypeError] when the literal is a bare integer, when an element is a
    bare integer or when a term-id is a list; a [ValueError] when an
    element has another length than two.  The first such element decides. *)
Theorem malformed_count_list_error (dictionary : dict str Z) (line : str)
    (raw : list str) (payload : str) (count_list : pyval) :
  search_group1 line = Ok payload ->
  literal_eval payload = Ok count_list ->
  ((exists z, count_list = PInt z) ->
   clean_count_and_labels (line :: raw) dictionary = Raise TypeError) /\
  (forall good bad rest,
     py_iter count_list = Ok (good ++ bad :: rest) ->
     is_Some (mapM as_pair good) ->
     ((exists z, bad = PInt z) ->
      clean_count_and_labels (line :: raw) dictionary = Raise TypeError) /\
     (forall xs, py_iter bad = Ok xs -> length xs <> 2%nat ->
      clean_count_and_labels (line :: raw) dictionary = Raise ValueError) /\
     (forall ys c, py_iter bad = Ok [PList ys; c] ->
      clean_count_and_labels (line :: raw) dictionary = Raise TypeError)).
Proof.
  intros Hpayload Hlit.
  assert (Hgen : forall e, dict_comprehension count_list = Raise e ->
                 clean_count_and_labels (line :: raw) dictionary = Raise e).
  { intros e He. rewrite clean_count_and_labels_decode. unfold decode_all.
    simpl. unfold decode_line. rewrite Hpayload. simpl. rewrite Hlit. simpl.
    by rewrite He. }
  split.
  - intros [z ->]. by apply Hgen.
  - intros good bad rest Hiter Hgood.
    assert (Hbad : forall e, (forall d', comprehension_body d' bad = Raise e) ->
                   clean_count_and_labels (line :: raw) dictionary = Raise e).
    { intros e He. apply Hgen. unfold dict_comprehension. rewrite Hiter. simpl.
      by apply comprehension_first_bad. }
    split; [|split].
    + intros [z ->]. by apply Hbad.
    + intros xs Hxs Hlen. apply Hbad. intros d'.
      unfold comprehension_body, unpack2. rewrite Hxs. simpl.
      by destruct xs as [|? [|? [|? ?]]].
    + intros ys c Hbadv. apply Hbad. intros d'.
      unfold comprehension_body, unpack2. by rewrite Hbadv.
Qed.

Lemma malformed_count_list_error_witness :
  clean_count_and_labels
    [s2l "X," ++ quoted "7" ++ [newline]; line_plain] sample_vocabulary =
    Raise TypeError /\
  clean_count_and_labels
    [s2l "X," ++ quoted "[(0, 1), (2, 3, 4), 5]" ++ [newline]; line_plain]
    sample_vocabulary = Raise ValueError.
Proof.
  split.
  - apply (proj1 (malformed_count_list_error sample_vocabulary
                    (s2l "X," ++ quoted "7" ++ [newline]) [line_plain]
                    (s2l "7") (PInt 7) eq_refl eq_refl)).
    by exists 7.
  - apply (proj1 (proj2 (proj2 (malformed_count_list_error sample_vocabulary
                    (s2l "X," ++ quoted "[(0, 1), (2, 3, 4), 5]" ++ [newline])
                    [line_plain] (s2l "[(0, 1), (2, 3, 4), 5]")
                    (PList [PTuple [PInt 0; PInt 1];
                            PTuple [PInt 2; PInt 3; PInt 4]; PInt 5])
                    eq_refl eq_refl)
                    [PTuple [PInt 0; PInt 1]] (PTuple [PInt 2; PInt 3; PInt 4])
                    [PInt 5] eq_refl ltac:(by eexists)))
             [PInt 2; PInt 3; PInt 4] eq_refl).
    discriminate.
Defined.

Lemma clean_labels (raw : list str) (dictionary : dict str Z)
    (count : list (list pyval)) (labels : list str) :
  clean_count_and_labels raw dictionary = Ok (count, labels) ->
  labels = map before_comma raw.
Proof.
  rewrite clean_count_and_labels_decode. intros Hrun.
  apply bind_Ok_inv in Hrun as (rs & Hrs & [= _ <-]).
  apply map_result_Ok_Forall in Hrs.
  induction Hrs as [|line [row label] raw rs Hline _ IH]; simpl; [done|].
  apply decode_line_length in Hline as [_ ->]. by rewrite IH.
Qed.

(** ** The baseline, continued *)

Lemma first_occurrences_app (a b : list str) :
  first_occurrences (a ++ b) =
    first_occurrences a ++ filter (fun x => x ∉ a) (first_occurrences b).
Proof.
  induction a as [|x a IH]; simpl.
  - symmetry. apply filter_all_true. intros y. apply not_elem_of_nil.
  - f_equal. rewrite IH, filter_app. f_equal.
    rewrite list_filter_filter. apply list_filter_iff.
    intros y. rewrite not_elem_of_cons. tauto.
Qed.

Lemma Counter_keys (labels : list str) :
  dict_keys (Counter labels) = first_occurrences labels.
Proof.
  unfold Counter, counter_incr.
  rewrite (dict_keys_fold_set (fun l => l)
             (fun d l => default 0 (dict_get d l) + 1)).
  simpl. rewrite map_id. apply filter_all_true. intros x. apply not_elem_of_nil.
Qed.

(** The counter lists the labels in the order of their first occurrence,
    each with its number of occurrences. *)
Lemma Counter_entries (labels : list str) :
  Counter labels =
    map (fun l => (l, occurrences l labels)) (first_occurrences labels).
Proof.
  rewrite <- Counter_keys.
  assert (Hall : forall l n, (l, n) ∈ Counter labels -> n = occurrences l labels).
  { intros l n Hin. by apply counter_loop_entries in Hin as [_ ->]. }
  revert Hall. generalize (Counter labels). intros d Hall.
  induction d as [|[l n] d IH]; simpl; [done|].
  rewrite (Hall l n) by by left. f_equal. apply IH.
  intros l' n' Hin. apply Hall. by right.
Qed.

(** The first entry with the largest count comes first in [most_common]. *)
Lemma most_common_first_max (c1 c2 : list (str * Z)) (h : str * Z) :
  Forall (fun x => x.2 < h.2) c1 ->
  Forall (fun x => x.2 <= h.2) c2 ->
  exists rest, most_common (c1 ++ h :: c2) = h :: rest.
Proof.
  intros Hc1 Hc2. induction Hc1 as [|x c1 Hx _ [rest IH]]; simpl.
  - assert (Hsorted : Forall (fun x => x.2 <= h.2) (most_common c2)).
    { by rewrite most_common_Permutation. }
    change (foldr insert_by_count [] c2) with (most_common c2).
    destruct (most_common c2) as [|y l]; simpl; [by eexists|].
    apply Forall_cons in Hsorted as [Hy _].
    assert ((h.2 <? y.2) = false) as -> by (apply Z.ltb_ge; lia). by eexists.
  - change (foldr insert_by_count [] (c1 ++ h :: c2))
      with (most_common (c1 ++ h :: c2)).
    rewrite IH. simpl.
    assert ((x.2 <? h.2) = true) as -> by (apply Z.ltb_lt; lia). by eexists.
Qed.

Lemma zero_r_nonempty (train_labels : list str) (test_features : matrix) :
  train_labels <> [] ->
  exists label,
    label ∈ train_labels /\
    (forall l, occurrences l train_labels <= occurrences label train_labels) /\
    zero_r train_labels test_features =
      Ok (replicate (length test_features) label).
Proof.
  intros Hne. unfold zero_r.
  set (label_counts := foldl counter_incr [] train_labels).
  destruct (most_common label_counts) as [|[label n] rest] eqn:Hmost.
  { exfalso. destruct train_labels as [|l ls]; [done|].
    assert (Hl : (l, occurrences l (l :: ls)) ∈ label_counts).
    { apply counter_loop_entries. split; [by left|done]. }
    rewrite <- (most_common_Permutation label_counts), Hmost in Hl.
    by apply elem_of_nil in Hl. }
  assert (Hhead : (label, n) ∈ label_counts).
  { rewrite <- (most_common_Permutation label_counts), Hmost. by left. }
  apply counter_loop_entries in Hhead as [Hin ->].
  exists label. split; [done|]. split; [|done].
  intros l. destruct (decide (l ∈ train_labels)) as [Hl|Hl].
  - assert (Hentry : (l, occurrences l train_labels) ∈ label_counts).
    { by apply counter_loop_entries. }
    pose proof (most_common_head _ _ _ Hmost) as Hmax.
    rewrite Forall_forall in Hmax. apply (Hmax _ Hentry).
  - assert (occurrences l train_labels = 0) as ->.
    { pose proof (occurrences_nonneg l train_labels).
      destruct (decide (0 < occurrences l train_labels)) as [Hpos|]; [|lia].
      by apply occurrences_pos in Hpos. }
    apply occurrences_nonneg.
Qed.

(** X12. [zero_r] raises an [IndexError] on an empty label vector; on any
    other it returns, for every row of the test matrix, one and the same
    label of the vector, and no label of the vector is more frequent than
    that one. *)
Theorem zero_r_empty_or_most_frequent (train_labels : list str)
    (test_features : matrix) :
  (train_labels = [] -> zero_r train_labels test_features = Raise IndexError) /\
  (train_labels <> [] ->
   exists label,
     label ∈ train_labels /\
     (forall l, occurrences l train_labels <= occurrences label train_labels) /\
     zero_r train_labels test_features =
       Ok (replicate (length test_features) label)).
Proof.
  split; [by intros ->|]. apply zero_r_nonempty.
Qed.

Lemma zero_r_empty_or_most_frequent_witness :
  zero_r [] sample_test_features = Raise IndexError /\
  exists label,
    label ∈ sample_train_labels /\
    (forall l, occurrences l sample_train_labels <=
               occurrences label sample_train_labels) /\
    zero_r sample_train_labels sample_test_features =
      Ok (replicate (length sample_test_features) label).
Proof.
  split.
  - by apply (proj1 (zero_r_empty_or_most_frequent [] sample_test_features)).
  - apply (proj2 (zero_r_empty_or_most_frequent sample_train_labels
                    sample_test_features)).
    discriminate.
Defined.

(** X13. Among several most frequent labels, [zero_r] predicts the one that
    occurs first in the training label vector: it returns the label [m]
    whenever no label is more frequent than [m] and every label that occurs
    before the first [m] is less frequent. *)
Theorem zero_r_tie_break (train_labels before after : list str) (m : str)
    (test_features : matrix) :
  train_labels = before ++ m :: after ->
  m ∉ before ->
  (forall l, l ∈ before ->
     occurrences l train_labels < occurrences m train_labels) ->
  (forall l, occurrences l train_labels <= occurrences m train_labels) ->
  zero_r train_labels test_features =
    Ok (replicate (length test_features) m).
Proof.
  intros Htrain Hm Hbefore Hmax. unfold zero_r.
  change (foldl counter_incr [] train_labels) with (Counter train_labels).
  rewrite Counter_entries.
  assert (Hkeys : first_occurrences train_labels =
                  first_occurrences before ++
                  m :: filter (fun x => x ∉ before)
                         (filter (fun y => y <> m) (first_occurrences after))).
  { rewrite Htrain, first_occurrences_app. simpl.
    by rewrite filter_cons, decide_True. }
  rewrite Hkeys, map_app. simpl.
  destruct (most_common_first_max
              (map (fun l => (l, occurrences l train_labels))
                 (first_occurrences before))
              (map (fun l => (l, occurrences l train_labels))
                 (filter (fun x => x ∉ before)
                    (filter (fun y => y <> m) (first_occurrences after))))
              (m, occurrences m train_labels)) as [rest Hrest].
  - apply Forall_forall. intros x Hx.
    apply list_elem_of_fmap in Hx as (l & -> & Hl). simpl.
    apply Hbefore. by apply first_occurrences_elem.
  - apply Forall_forall. intros x Hx.
    apply list_elem_of_fmap in Hx as (l & -> & Hl). simpl. apply Hmax.
  - by rewrite Hrest.
Qed.

Lemma zero_r_tie_break_witness :
  zero_r [s2l "B"; s2l "A"; s2l "C"; s2l "A"; s2l "C"] sample_test_features =
    Ok (replicate (length sample_test_features) (s2l "A")).
Proof.
  apply (zero_r_tie_break _ [s2l "B"] [s2l "C"; s2l "A"; s2l "C"] (s2l "A")).
  - reflexivity.
  - apply (bool_decide_unpack _). vm_compute. exact I.
  - intros l Hl. apply list_elem_of_singleton in Hl as ->.
    vm_compute. reflexivity.
  - intros l. rewrite !occurrences_cons, occurrences_nil.
    repeat case_decide; simplify_eq/=; rewrite ?occurrences_nil; lia.
Defined.

Lemma Counter_replicate (n : nat) (label : str) :
  Counter (replicate (S n) label) = [(label, Z.of_nat (S n))].
Proof.
  rewrite Counter_entries. simpl first_occurrences.
  assert (Hrest : first_occurrences (replicate n label) =
                  (match n with O => [] | S _ => [label] end)).
  { induction n as [|n IH]; simpl; [done|]. rewrite IH.
    destruct n; [done|]. by rewrite filter_cons, decide_False, filter_nil by tauto. }
  rewrite Hrest.
  assert (Hnil : filter (fun y => y <> label)
                   (match n with O => [] | S _ => [label] end) = []).
  { destruct n; [done|]. by rewrite filter_cons, decide_False, filter_nil by tauto. }
  rewrite Hnil. simpl. do 2 f_equal.
  change (label :: replicate n label) with (replicate (S n) label).
  rewrite occurrences_replicate. by rewrite decide_True.
Qed.

(** X14. The distribution that the baseline cell prints has a single
    class, with the number of rows of the matrix as its count; it is empty
    when the matrix has no row. *)
Theorem zero_r_distribution (train_labels : list str)
    (dev_count_values : matrix) (predictions : list str)
    (distribution : dict str Z) :
  zero_r_cell train_labels dev_count_values = Ok (predictions, distribution) ->
  (dev_count_values = [] -> distribution = []) /\
  (dev_count_values <> [] ->
   exists label,
     label ∈ train_labels /\
     distribution = [(label, Z.of_nat (length dev_count_values))]).
Proof.
  unfold zero_r_cell. intros Hcell.
  apply bind_Ok_inv in Hcell as (preds & Hzero & [= <- <-]).
  destruct (decide (train_labels = [])) as [->|Hne]; [discriminate|].
  destruct (zero_r_nonempty train_labels dev_count_values Hne)
    as (label & Hin & _ & Hrun).
  rewrite Hrun in Hzero. injection Hzero as <-. split.
  - by intros ->.
  - intros Hdev. exists label. split; [done|].
    destruct dev_count_values as [|row rows]; [done|].
    simpl length. by rewrite Counter_replicate.
Qed.

Lemma zero_r_distribution_witness :
  (sample_test_features = [] -> [(s2l "A", 3)] = []) /\
  (sample_test_features <> [] ->
   exists label,
     label ∈ sample_train_labels /\
     [(s2l "A", 3)] = [(label, Z.of_nat (length sample_test_features))]).
Proof.
  apply (zero_r_distribution sample_train_labels sample_test_features
           (replicate 3 (s2l "A"))).
  vm_compute. reflexivity.
Defined.

(** ** The predictions file *)

Lemma write_loop (test_predictions : list str) (file : list (list field))
    (i : Z) :
  foldl write_body (file, i) test_predictions =
    (file ++ imap (fun k p => [FInt (i + Z.of_nat k); FStr p]) test_predictions,
     i + Z.of_nat (length test_predictions)).
Proof.
  revert file i. induction test_predictions as [|p ps IH]; intros file i; simpl.
  - by rewrite app_nil_r, Z.add_0_r.
  - unfold writerow. rewrite IH, <- app_assoc. simpl. f_equal.
    + do 2 f_equal; [by rewrite Z.add_0_r|].
      apply imap_ext. intros k p' _. simpl. do 2 f_equal. lia.
    + lia.
Qed.

(** X15. The predictions file starts with the row [id, region] and then
    holds one row per prediction, in the order of the predictions, numbered
    from 1 without a gap: row [k] holds [k] and the [k]-th prediction. *)
Theorem predictions_file_rows (test_predictions : list str) :
  length (write_predictions test_predictions) = S (length test_predictions) /\
  write_predictions test_predictions !! 0%nat =
    Some [FStr (s2l "id"); FStr (s2l "region")] /\
  (forall k prediction,
     test_predictions !! k = Some prediction ->
     write_predictions test_predictions !! S k =
       Some [FInt (Z.of_nat (S k)); FStr prediction]) /\
  (forall k row,
     write_predictions test_predictions !! S k = Some row ->
     exists prediction,
       test_predictions !! k = Some prediction /\
       row = [FInt (Z.of_nat (S k)); FStr prediction]).
Proof.
  unfold write_predictions, writerow. rewrite write_loop. simpl.
  assert (Hrow : forall k,
    imap (fun k p => [FInt (1 + Z.of_nat k); FStr p]) test_predictions !! k =
      (fun p => [FInt (Z.of_nat (S k)); FStr p]) <$> test_predictions !! k).
  { intros k. rewrite list_lookup_imap.
    destruct (test_predictions !! k); simpl; [|done]. do 3 f_equal. lia. }
  split; [by rewrite length_imap|]. split; [done|]. split.
  - intros k prediction Hk. by rewrite Hrow, Hk.
  - intros k row. rewrite Hrow.
    destruct (test_predictions !! k) as [p|]; simpl; [|done].
    intros [= <-]. by exists p.
Qed.

Lemma predictions_file_rows_witness :
  write_predictions [s2l "WEST"; s2l "SOUTH"] !! 2%nat =
    Some [FInt (Z.of_nat 2); FStr (s2l "SOUTH")].
Proof.
  apply (proj1 (proj2 (proj2 (predictions_file_rows [s2l "WEST"; s2l "SOUTH"])))).
  reflexivity.
Defined.

(** ** The notebook, continued *)

Section NotebookLabels.
Context {sparse selector : Type}.
Variable csr_matrix : list (list pyval) -> result sparse.
Variable x2_fit : sparse -> list str -> nat -> result selector.
Variable x2_transform : selector -> sparse -> result (sparse * selector).

(** X16. In a run of the notebook that goes through, the training and the
    development labels are the texts before the first comma of the lines
    of their files, the first line of each file left out; the first lines
    are never decoded.  The vocabulary is the one built from the
    vocabulary file. *)
Theorem notebook_labels (k : nat)
    (vocabulary train_file dev_file test_file : list str)
    (nb : notebook (sparse := sparse) (selector := selector)) :
  run_cells csr_matrix x2_fit x2_transform k vocabulary train_file dev_file
    test_file = Ok nb ->
  build_word_dict vocabulary = Ok (word_dict nb) /\
  train_labels nb = map before_comma (drop 1 train_file) /\
  dev_labels nb = map before_comma (drop 1 dev_file) /\
  Forall (fun line => is_ok (decode_line (word_dict nb) line))
    (drop 1 train_file ++ drop 1 dev_file ++ drop 1 test_file).
Proof.
  unfold run_cells. intros Hrun.
  apply bind_Ok_inv in Hrun as (wd & Hwd & Hrun).
  apply bind_Ok_inv in Hrun as ([train_count train_lab] & Htrain & Hrun).
  apply bind_Ok_inv in Hrun as (full_train & _ & Hrun).
  apply bind_Ok_inv in Hrun as ([dev_count dev_lab] & Hdev & Hrun).
  apply bind_Ok_inv in Hrun as (full_dev & _ & Hrun).
  apply bind_Ok_inv in Hrun as (s & _ & Hrun).
  apply bind_Ok_inv in Hrun as ([train' s1] & _ & Hrun).
  apply bind_Ok_inv in Hrun as ([dev' s2] & _ & Hrun).
  apply bind_Ok_inv in Hrun as ([test_count test_lab] & Htest & Hrun).
  apply bind_Ok_inv in Hrun as (full_test & _ & Hrun).
  apply bind_Ok_inv in Hrun as ([test' s3] & _ & [= <-]). simpl.
  split; [done|].
  split; [by eapply clean_labels|]. split; [by eapply clean_labels|].
  rewrite !Forall_app.
  split; [|split]; apply clean_count_and_labels_is_ok; by eexists.
Qed.

End NotebookLabels.

Lemma notebook_labels_witness :
  exists nb,
    run_cells csr_of_rows (fit Z.ltb column_total) transform_call 2
      plain_vocabulary_file sample_train_file sample_dev_file sample_test_file =
      Ok nb /\
    build_word_dict plain_vocabulary_file = Ok (word_dict nb) /\
    train_labels nb = map before_comma (drop 1 sample_train_file) /\
    dev_labels nb = map before_comma (drop 1 sample_dev_file) /\
    Forall (fun line => is_ok (decode_line (word_dict nb) line))
      (drop 1 sample_train_file ++ drop 1 sample_dev_file ++
       drop 1 sample_test_file).
Proof.
  eexists. split; [vm_compute; reflexivity|].
  apply (notebook_labels csr_of_rows (fit Z.ltb column_total) transform_call 2
           plain_vocabulary_file sample_train_file sample_dev_file
           sample_test_file).
  vm_compute. reflexivity.
Defined.

(** ** Well-formed records *)

Lemma lex_number (ds rest cur : str) :
  Forall number_char ds -> lex cur (ds ++ rest) = lex (rev ds ++ cur) rest.
Proof.
  intros Hds. revert cur. induction Hds as [|c ds Hc _ IH]; intros cur; [done|].
  simpl.
  assert (Hnum : bool_decide (is_Some (digit_of c)) || bool_decide (c = "_"%char)
                 = true).
  { apply orb_true_iff. destruct Hc as [Hc|Hc]; [left|right];
      by apply bool_decide_eq_true. }
  rewrite Hnum, IH. by rewrite <- app_assoc.
Qed.

Lemma close_number_numeral (ds : str) (ts : list token) :
  numeral ds -> close_number (rev ds) ts = Some (TInt (numeral_value ds) :: ts).
Proof.
  intros [_ [z Hz]]. unfold close_number, numeral_value.
  rewrite rev_involutive, Hz. simpl.
  apply decimal_literal_digits in Hz as [_ Hne].
  destruct (rev ds) eqn:Hrev; [|done].
  apply (f_equal (@rev ascii)) in Hrev. rewrite rev_involutive in Hrev. done.
Qed.

Lemma lex_pair (p : str * str) (rest : str) (ts : list token) :
  numeral p.1 -> numeral p.2 ->
  lex [] rest = Some ts ->
  lex [] (render_pair p ++ rest) =
    Some (pair_tokens (numeral_value p.1, numeral_value p.2) ++ ts).
Proof.
  intros H1 H2 Hrest. unfold render_pair. rewrite <- !app_assoc.
  change (s2l "(" ++ ?x) with ("("%char :: x).
  change (s2l ", " ++ ?x) with (","%char :: " "%char :: x).
  change (s2l ")" ++ ?x) with (")"%char :: x).
  assert (Hclose : lex [] (p.2 ++ ")"%char :: rest) =
                   Some (TInt (numeral_value p.2) :: TRPar :: ts)).
  { rewrite lex_number by apply H2. rewrite app_nil_r. simpl.
    rewrite Hrest. simpl. by apply close_number_numeral. }
  assert (Hmid : lex [] (p.1 ++ ","%char :: " "%char :: p.2 ++ ")"%char :: rest) =
                 Some (TInt (numeral_value p.1) :: TComma ::
                       TInt (numeral_value p.2) :: TRPar :: ts)).
  { rewrite lex_number by apply H1. rewrite app_nil_r. simpl.
    rewrite Hclose. simpl. by apply close_number_numeral. }
  simpl. by rewrite Hmid.
Qed.

Lemma lex_comma_blank (s : str) :
  lex [] (","%char :: " "%char :: s) = cons TComma <$> lex [] s.
Proof. simpl. by destruct (lex [] s). Qed.

Lemma lex_open_bracket (s : str) :
  lex [] ("["%char :: s) = cons TLBrack <$> lex [] s.
Proof. simpl. by destruct (lex [] s). Qed.

Lemma lex_items (ps : list (str * str)) (rest : str) (ts : list token) :
  Forall (fun p => numeral p.1 /\ numeral p.2) ps ->
  lex [] rest = Some ts ->
  lex [] (render_items ps ++ rest) =
    Some (items_tokens
            (map (fun p => (numeral_value p.1, numeral_value p.2)) ps) ++ ts).
Proof.
  intros Hps Hrest. induction Hps as [|p ps [H1 H2] Hps IH]; [done|].
  destruct ps as [|p' ps].
  - simpl. by apply lex_pair.
  - change (render_items (p :: p' :: ps))
      with (render_pair p ++ s2l ", " ++ render_items (p' :: ps)).
    rewrite <- !app_assoc.
    change (s2l ", " ++ ?x) with (","%char :: " "%char :: x).
    rewrite (lex_pair p _ (TComma :: items_tokens
               (map (fun p => (numeral_value p.1, numeral_value p.2)) (p' :: ps))
               ++ ts)) by (try done; by rewrite lex_comma_blank, IH).
    simpl. by rewrite <- ?app_assoc.
Qed.

Lemma parse_items (vs : list (Z * Z)) (ts : list token) (stack : list frame)
    (k : bracket) (items' : list pyval) (commas' : bool) (sign' : option bool)
    (items : list pyval) (commas plain : bool) :
  parse (items_tokens vs ++ TRBrack :: ts)
    ((k, items', commas', sign') :: stack) Brack items commas None plain false =
  parse ts stack k (PList (rev items ++ map pair_value vs) :: items')
    commas' sign' false true.
Proof.
  revert items commas plain. induction vs as [|v vs IH]; intros items commas plain.
  - simpl. by rewrite app_nil_r.
  - destruct vs as [|v' vs].
    + simpl. by rewrite <- ?app_assoc.
    + change (items_tokens (v :: v' :: vs))
        with (pair_tokens v ++ TComma :: items_tokens (v' :: vs)).
      rewrite <- app_assoc.
      change (parse (items_tokens (v' :: vs) ++ TRBrack :: ts)
                ((k, items', commas', sign') :: stack) Brack
                (pair_value v :: items) true None false false =
              parse ts stack k
                (PList (rev items ++ map pair_value (v :: v' :: vs)) :: items')
                commas' sign' false true).
      rewrite IH. simpl. by rewrite <- ?app_assoc.
Qed.

Lemma literal_eval_count_list (ps : list (str * str)) :
  Forall (fun p => numeral p.1 /\ numeral p.2) ps ->
  literal_eval (render_count_list ps) =
    Ok (PList (map pair_value
                 (map (fun p => (numeral_value p.1, numeral_value p.2)) ps))).
Proof.
  intros Hps. unfold literal_eval, render_count_list.
  change (s2l "[" ++ ?x) with ("["%char :: x).
  assert (Hlex : lex [] ("["%char :: render_items ps ++ s2l "]") =
                 Some (TLBrack :: items_tokens
                         (map (fun p => (numeral_value p.1, numeral_value p.2)) ps)
                         ++ [TRBrack])).
  { rewrite lex_open_bracket.
    by rewrite (lex_items ps (s2l "]") [TRBrack]). }
  rewrite Hlex. simpl.
  change (parse (items_tokens ?vs ++ [TRBrack]) [(Top, [], false, None)]
            Brack [] false None false false)
    with (parse (items_tokens vs ++ TRBrack :: []) ((Top, [], false, None) :: [])
            Brack [] false None false false).
  by rewrite parse_items.
Qed.

Lemma as_pairs_pair_values (vs : list (Z * Z)) :
  as_pairs (PList (map pair_value vs)) = Some vs.
Proof.
  simpl. induction vs as [|[a b] vs IH]; simpl; [done|]. by rewrite IH.
Qed.

Lemma render_count_list_chars (ps : list (str * str)) :
  Forall (fun p => numeral p.1 /\ numeral p.2) ps ->
  Forall (fun c => c <> dquote /\ c <> newline) (render_count_list ps).
Proof.
  intros Hps.
  assert (Hnum : forall s, numeral s ->
                 Forall (fun c => c <> dquote /\ c <> newline) s).
  { intros s [Hs _]. eapply Forall_impl; [exact Hs|]. simpl. intros c Hc.
    by destruct (number_char_cases c Hc) as (_&_&_&_&?&?&_). }
  assert (Hpair : forall p, numeral p.1 -> numeral p.2 ->
                  Forall (fun c => c <> dquote /\ c <> newline) (render_pair p)).
  { intros p H1 H2. unfold render_pair. rewrite !Forall_app.
    repeat split; try by apply Hnum.
    all: repeat constructor; discriminate. }
  unfold render_count_list. rewrite !Forall_app.
  split; [repeat constructor; discriminate|].
  split; [|repeat constructor; discriminate].
  induction Hps as [|p ps [H1 H2] _ IH]; [constructor|].
  destruct ps as [|p' ps]; [by apply Hpair|].
  change (render_items (p :: p' :: ps))
    with (render_pair p ++ s2l ", " ++ render_items (p' :: ps)).
  rewrite !Forall_app. split; [by apply Hpair|].
  split; [repeat constructor; discriminate|done].
Qed.

Lemma re_search_quoted_first (pre payload post : str) :
  dquote ∉ pre -> dquote ∉ payload -> newline ∉ payload ->
  re_search_quoted (pre ++ dquote :: payload ++ dquote :: post) = Some payload.
Proof.
  intros Hpre Hq Hn. induction pre as [|c pre IH]; simpl.
  - by rewrite until_quote_app.
  - apply not_elem_of_cons in Hpre as [Hc Hpre].
    rewrite decide_False by congruence. by apply IH.
Qed.

Lemma before_comma_app (label rest : str) :
  comma ∉ label -> before_comma (label ++ comma :: rest) = label.
Proof.
  induction label as [|c label IH]; simpl; intros Hl; [done|].
  apply not_elem_of_cons in Hl as [Hc Hl].
  rewrite decide_False by congruence. by rewrite IH.
Qed.

Lemma decode_record (dictionary : dict str Z) (r : record) :
  wellformed r ->
  decode_line dictionary (record_line r) =
    Ok (row_of (count_dict_of_pairs (record_values r)) dictionary, rec_label r).
Proof.
  intros (Hlabel & Hpre & Hpairs).
  pose proof (render_count_list_chars _ Hpairs) as Hchars.
  rewrite Forall_forall in Hchars.
  assert (Hpayload : search_group1 (record_line r) =
                     Ok (render_count_list (rec_pairs r))).
  { unfold search_group1, record_line.
    rewrite (app_comm_cons _ _ comma), app_assoc.
    rewrite re_search_quoted_first; [done|done|..];
      intros Hin; by destruct (Hchars _ Hin). }
  assert (Hl : pairs_of_line (record_line r) = Some (record_values r)).
  { unfold pairs_of_line. rewrite Hpayload. simpl.
    rewrite (literal_eval_count_list _ Hpairs). apply as_pairs_pair_values. }
  rewrite (decode_line_pairs _ _ _ Hl). unfold record_line.
  by rewrite before_comma_app.
Qed.

(** X17. Every dataset of well-formed records is decoded: the build
    returns, with the label of every record and, for every record, the row
    of the values of its pairs. *)
Theorem wellformed_dataset_decodes (dictionary : dict str Z)
    (records : list record) :
  Forall wellformed records ->
  clean_count_and_labels (map record_line records) dictionary =
    Ok (map (fun r => row_of (count_dict_of_pairs (record_values r)) dictionary)
          records,
        map rec_label records).
Proof.
  intros Hrecords. rewrite clean_count_and_labels_decode. unfold decode_all.
  assert (Hall : map_result (decode_line dictionary) (map record_line records) =
                 Ok (map (fun r => (row_of (count_dict_of_pairs (record_values r))
                                      dictionary, rec_label r)) records)).
  { induction Hrecords as [|r records Hr _ IH]; simpl; [done|].
    by rewrite decode_record, IH. }
  rewrite Hall. simpl. by rewrite !map_map.
Qed.

Lemma wellformed_dataset_decodes_witness :
  clean_count_and_labels (map record_line sample_records) sample_vocabulary =
    Ok (map (fun r => row_of (count_dict_of_pairs (record_values r))
                        sample_vocabulary) sample_records,
        map rec_label sample_records).
Proof.
  apply (wellformed_dataset_decodes sample_vocabulary sample_records).
  repeat constructor; simpl;
    try (apply (bool_decide_unpack _); vm_compute; exact I);
    try (repeat constructor; first [left; eexists; vm_compute; reflexivity
                                   | right; reflexivity]);
    try (eexists; vm_compute; reflexivity).
Defined.
